(** * PubMed curation pipeline: a shallow embedding of
      [pubmed_fetcher.py] and of the read API of [app.py].

    Python [str] values are sequences of Unicode code points; they are
    modelled as lists of code points ([N]).  Library calls whose code is
    not part of the repository ([str.replace], [re.sub], [str.strip],
    the ElementTree path functions, the SQLAlchemy session) are modelled
    by their documented behaviour; the functions of the repository are
    translated statement by statement on top of them. *)

From Stdlib Require Import NArith ZArith String Ascii Lia.
From stdpp Require Import base tactics option list.

Local Open Scope N_scope.
#[local] Set Warnings "-register-all".

(** ** Python strings *)

Module PyStr.

Abbreviation char := N (only parsing).
Abbreviation str := (list N) (only parsing).

(** An ASCII literal as a Python string. *)
Definition u (s : string) : str :=
  List.map N_of_ascii (list_ascii_of_string s).

Definition LF : char := 10.
Definition SPACE : char := 32.
Definition QUOT : char := 34.
Definition LT : char := 60.
Definition GT : char := 62.

(** [Py_UNICODE_ISSPACE]: the characters that [\s] (in a [str] pattern)
    and [str.strip()] treat as whitespace. *)
Definition Py_UNICODE_ISSPACE (c : char) : bool :=
  ((9 <=? c) && (c <=? 13)) || ((28 <=? c) && (c <=? 32))
  || (c =? 133) || (c =? 160) || (c =? 5760)
  || ((8192 <=? c) && (c <=? 8202))
  || (c =? 8232) || (c =? 8233) || (c =? 8239) || (c =? 8287)
  || (c =? 12288).

(** Truthiness of a string: [if s] holds for a string that is not empty. *)
Definition truthy (s : str) : bool :=
  match s with [] => false | _ :: _ => true end.

(** Truthiness of an optional string ([None] and [''] are falsy). *)
Definition truthy_opt (o : option str) : bool :=
  match o with Some s => truthy s | None => false end.

Fixpoint str_eqb (a b : str) : bool :=
  match a, b with
  | [], [] => true
  | x :: a', y :: b' => (x =? y) && str_eqb a' b'
  | _, _ => false
  end.

(** [sep.join(parts)] *)
Fixpoint join (sep : str) (parts : list str) : str :=
  match parts with
  | [] => []
  | [p] => p
  | p :: rest => p ++ sep ++ join sep rest
  end.

(** *** Left-to-right substitution of matches that do not overlap

    [str.replace] and [re.sub] share one scanning discipline: at every
    position that is not covered by an earlier match the pattern is tried;
    a match of [n] characters is replaced and the scan resumes behind it;
    otherwise the character is copied.  [matcher s] is the length of the
    match that starts at the head of [s].  None of the patterns used by the
    program matches the empty string. *)

Section Scan.
Variable matcher : str -> option nat.
Variable repl : str.

Fixpoint sub_from (skip : nat) (s : str) : str :=
  match s with
  | [] => []
  | c :: r =>
      match skip with
      | S k => sub_from k r
      | O =>
          match matcher s with
          | Some (S k) => repl ++ sub_from k r
          | _ => c :: sub_from 0 r
          end
      end
  end.

Definition sub_all (s : str) : str := sub_from 0 s.

(** Some position of [s] starts a match. *)
Fixpoint matches_somewhere (s : str) : bool :=
  match s with
  | [] => false
  | _ :: r =>
      match matcher s with
      | Some (S _) => true
      | _ => matches_somewhere r
      end
  end.
End Scan.

(** [old] is a prefix of [s]: what remains of [s] behind it. *)
Fixpoint strip_prefix (old s : str) : option str :=
  match old, s with
  | [], _ => Some s
  | o :: old', c :: s' => if o =? c then strip_prefix old' s' else None
  | _ :: _, [] => None
  end.

Definition literal_at (old s : str) : option nat :=
  match strip_prefix old s with
  | Some _ => Some (length old)
  | None => None
  end.

(** [s.replace(old, new)]; with an empty [old], Python inserts [new]
    before every character and at the end. *)
Definition str_replace (old new s : str) : str :=
  match old with
  | [] => new ++ List.concat (List.map (fun c => c :: new) s)
  | _ :: _ => sub_all (literal_at old) new s
  end.

(** The pattern [<.*?>]: a ['<'], then as few characters other than a
    newline as possible, then ['>'].  [close_at s] is the number of
    characters of [s] up to and including the first ['>'], when no newline
    comes before it. *)
Fixpoint close_at (s : str) : option nat :=
  match s with
  | [] => None
  | c :: r =>
      if c =? GT then Some 1%nat
      else if c =? LF then None
      else option_map S (close_at r)
  end.

Definition tag_at (s : str) : option nat :=
  match s with
  | c :: r => if c =? LT then option_map S (close_at r) else None
  | [] => None
  end.

(** The pattern [\s+]: a longest run of whitespace, at least one. *)
Fixpoint space_run (s : str) : nat :=
  match s with
  | c :: r => if Py_UNICODE_ISSPACE c then S (space_run r) else O
  | [] => O
  end.

Definition spaces_at (s : str) : option nat :=
  match space_run s with
  | O => None
  | n => Some n
  end.

(** [s.lstrip()], [s.rstrip()], [s.strip()] *)
Fixpoint lstrip (s : str) : str :=
  match s with
  | c :: r => if Py_UNICODE_ISSPACE c then lstrip r else s
  | [] => []
  end.

Definition rstrip (s : str) : str := rev (lstrip (rev s)).

Definition strip (s : str) : str := rstrip (lstrip s).

(** Predicates used to state what the whitespace pass achieves. *)
Definition starts_with_space (s : str) : bool :=
  match s with
  | c :: _ => Py_UNICODE_ISSPACE c
  | [] => false
  end.

(** Every whitespace character is a single blank between two words. *)
Fixpoint collapsed (s : str) : bool :=
  match s with
  | [] => true
  | c :: r =>
      (if Py_UNICODE_ISSPACE c then (c =? SPACE) && negb (starts_with_space r)
       else true) && collapsed r
  end.

(** [sub in s]: [sub] occurs in [s] as a substring. *)
Fixpoint contains (sub s : str) : bool :=
  match strip_prefix sub s with
  | Some _ => true
  | None =>
      match s with
      | [] => false
      | _ :: r => contains sub r
      end
  end.

(** [s.split(sep)] for a separator that is not empty: the pieces between
    the occurrences of [sep], found from left to right; [cur] is the piece
    being read. *)
Fixpoint split_from (sep : str) (skip : nat) (cur s : str) : list str :=
  match s with
  | [] => [cur]
  | c :: r =>
      match skip with
      | S k => split_from sep k cur r
      | O =>
          match strip_prefix sep s with
          | Some _ => cur :: split_from sep (length sep - 1) [] r
          | None => split_from sep 0 (cur ++ [c]) r
          end
      end
  end.

Definition split (sep s : str) : list str := split_from sep 0 [] s.

(** Somewhere a ['>'] comes after a ['<']. *)
Fixpoint opens_then_closes (s : str) : bool :=
  match s with
  | [] => false
  | c :: r => ((c =? LT) && existsb (N.eqb GT) r) || opens_then_closes r
  end.

End PyStr.

Import PyStr.

(** ** [pubmed_fetcher.py] *)

Module Fetcher.

(** The three code points of the mis-encoded apostrophe (U+00E2, U+20AC,
    U+2122). *)
Definition MOJIBAKE_APOSTROPHE : str := [226; 8364; 8482].

(** [clean_text]: the five [replace] calls as the source has them, the tag
    pattern, the whitespace pattern, [strip]. *)
Definition clean_text (text : option str) : str :=
  match text with
  | None => []
  | Some text =>
      let text := str_replace (u "&") (u "&") text in
      let text := str_replace [LT] [LT] text in
      let text := str_replace [GT] [GT] text in
      let text := str_replace [QUOT] [QUOT] text in
      let text := str_replace MOJIBAKE_APOSTROPHE (u "'") text in
      let text := sub_all tag_at [] text in
      let text := sub_all spaces_at [SPACE] text in
      strip text
  end.


(** *** The parsed response document

    An [xml.etree.ElementTree.Element]: tag, attributes, text before the
    first child, children, and the text that follows the element inside
    its parent. *)
Inductive Element : Type :=
| mkElement (tag : str) (attrib : list (str * str)) (text : option str)
            (children : list Element) (tail : option str).

Definition tag (e : Element) : str :=
  match e with mkElement t _ _ _ _ => t end.
Definition attrib (e : Element) : list (str * str) :=
  match e with mkElement _ a _ _ _ => a end.
Definition text (e : Element) : option str :=
  match e with mkElement _ _ x _ _ => x end.
Definition children (e : Element) : list Element :=
  match e with mkElement _ _ _ c _ => c end.
Definition tail (e : Element) : option str :=
  match e with mkElement _ _ _ _ x => x end.

(** [e.iter()]: the element and its descendants, in document order. *)
Fixpoint iter (e : Element) : list Element :=
  match e with
  | mkElement _ _ _ cs _ => e :: flat_map iter cs
  end.

Definition has_tag (name : str) (e : Element) : bool := str_eqb (tag e) name.

(** The path step [//name] of ElementPath: every element with that tag
    strictly below one of [result]. *)
Definition step_descendant (name : str) (result : list Element) : list Element :=
  flat_map (fun elem => filter (fun e => has_tag name e = true)
                               (flat_map iter (children elem))) result.

(** The path step [/name] (and a leading bare [name]): the children with
    that tag. *)
Definition step_child (name : str) (result : list Element) : list Element :=
  flat_map (fun elem => filter (fun e => has_tag name e = true) (children elem))
           result.

(** The paths the program uses: [.//a], [.//a/b] and [a]. *)
Inductive Path : Type :=
| Descendant (a : str)
| DescendantChild (a b : str)
| Child (a : str).

Definition iterfind (elem : Element) (path : Path) : list Element :=
  match path with
  | Descendant a => step_descendant a [elem]
  | DescendantChild a b => step_child b (step_descendant a [elem])
  | Child a => step_child a [elem]
  end.

Definition findall (elem : Element) (path : Path) : list Element :=
  iterfind elem path.

Definition find (elem : Element) (path : Path) : option Element :=
  head (iterfind elem path).

(** [elem.findtext(path)]: the text of the first match, [''] when that
    element has no text, [None] when nothing matches. *)
Definition findtext (elem : Element) (path : Path) : option str :=
  match find elem path with
  | Some e => Some (default [] (text e))
  | None => None
  end.

(** [elem.get(key)] *)
Fixpoint get (key : str) (attrs : list (str * str)) : option str :=
  match attrs with
  | [] => None
  | (k, v) :: rest => if str_eqb k key then Some v else get key rest
  end.

Definition nonempty_text (o : option str) : list str :=
  match o with
  | Some (c :: s) => [c :: s]
  | _ => []
  end.

(** [elem.itertext()]: the inner text, piece by piece. *)
Fixpoint itertext (e : Element) : list str :=
  match e with
  | mkElement _ _ t cs _ =>
      nonempty_text t
      ++ flat_map (fun c => itertext c ++ nonempty_text (tail c)) cs
  end.

(** *** Records handed from stage to stage

    The dictionaries of the pipeline have a fixed set of keys.  ['pmid']
    holds what [findtext] returned, so it may be [None]; ['keywords'] and
    ['summary'] are absent ([None] here) until their stage has run. *)
Record ArticleData : Type := mkArticleData {
  pmid : option str;
  title : str;
  abstract : str;
  pub_date : str;
  keywords : option (list str);
  summary : option str
}.

Definition NOT_AVAILABLE : str := u "N/A".

(** The body of the abstract loop: one [AbstractText] element. *)
Definition abstract_step (abstract_text : str) (abs_elem : Element) : str :=
  let label := get (u "Label") (attrib abs_elem) in
  let abstract_text :=
    match label with
    | Some (c :: l) => abstract_text ++ u "**" ++ (c :: l) ++ u ":** "
    | _ => abstract_text
    end in
  let paragraph_text := strip (concat (itertext abs_elem)) in
  abstract_text ++ (if truthy paragraph_text then paragraph_text ++ [LF] else []).

(** The conditional expression that builds the publication date. *)
Definition publication_date_of (year month day medline_date : option str) : str :=
  match year, month, day with
  | Some (y :: ys), Some (m :: ms), Some (d :: ds) =>
      (y :: ys) ++ u "-" ++ (m :: ms) ++ u "-" ++ (d :: ds)
  | _, _, _ =>
      match medline_date with
      | Some (c :: s) => c :: s
      | _ => NOT_AVAILABLE
      end
  end.

(** The body of [for pubmed_article in ...]: the record that is appended,
    or [None] when the body raises ([pub_date_element] is [None] and
    [None.findtext] is an [AttributeError]). *)
Definition parse_pubmed_article (pubmed_article : Element) : option ArticleData :=
  let pmid := findtext pubmed_article (DescendantChild (u "MedlineCitation") (u "PMID")) in
  let article_title_element := find pubmed_article (Descendant (u "ArticleTitle")) in
  let article_title :=
    match article_title_element with
    | Some e => strip (concat (itertext e))
    | None => NOT_AVAILABLE
    end in
  let abstract_elements :=
    findall pubmed_article (DescendantChild (u "Abstract") (u "AbstractText")) in
  let abstract_text := fold_left abstract_step abstract_elements [] in
  match find pubmed_article (Descendant (u "PubDate")) with
  | None => None
  | Some pub_date_element =>
      let year := findtext pub_date_element (Child (u "Year")) in
      let month := findtext pub_date_element (Child (u "Month")) in
      let day := findtext pub_date_element (Child (u "Day")) in
      let medline_date := findtext pub_date_element (Child (u "MedlineDate")) in
      let publication_date := publication_date_of year month day medline_date in
      Some {| pmid := pmid; title := article_title;
              abstract := strip abstract_text; pub_date := publication_date;
              keywords := None; summary := None |}
  end.

(** The loop over the records; one raising body leaves the loop. *)
Fixpoint parse_all (articles : list Element) (article_details : list ArticleData)
  : option (list ArticleData) :=
  match articles with
  | [] => Some article_details
  | pubmed_article :: rest =>
      match parse_pubmed_article pubmed_article with
      | Some r => parse_all rest (article_details ++ [r])
      | None => None
      end
  end.

(** [fetch_article_details_with_abstract].  [response] is the parsed body
    of the HTTP answer, [None] when the request, the status check or the
    XML parser raised. *)
Definition fetch_article_details_with_abstract
    (pubmed_ids : list str) (response : option Element) : list ArticleData :=
  match pubmed_ids with
  | [] => []
  | _ :: _ =>
      match response with
      | None => []
      | Some root =>
          match parse_all (findall root (Descendant (u "PubmedArticle"))) [] with
          | Some article_details => article_details
          | None => []
          end
      end
  end.

(** *** Enrichment

    The linguistic libraries are not part of the repository; they are the
    parameters of this section, and each call that can raise has an
    outcome for it.  [nltk_data r] is the answer of
    [check_and_download_nltk_data r], taken to be the same at every call
    of a run.  [stopwords_words] is
    [nltk.corpus.stopwords.words('english')], [None] when it raises.
    [Rake None] is [Rake()] and [Rake (Some words)] is
    [Rake(stopwords=words)]; the constructor yields an object or raises
    ([None]).  An object is described by what it does with a text.
    [lexrank] stands for the parser, the summarizer and its call, each of
    which may raise inside a [try]. *)
Inductive Resource : Type := TokenizersPunkt | CorporaStopwords.

(** What a [Rake] object does with a text: [extract_keywords_from_text]
    raises, or it returns and the scored phrases, read with
    [get_ranked_phrases_with_scores] and sorted by descending score, are
    [ranked_phrases] (the scores are floating point and are dropped by the
    caller), [None] when reading or sorting them raises. *)
Inductive Extraction : Type :=
| ExtractRaises
| Ranked (ranked_phrases : option (list str)).

Record Libraries : Type := mkLibraries {
  nltk_data : Resource -> bool;
  stopwords_words : option (list str);
  Rake : option (list str) -> option (str -> Extraction);
  SumyLexRankSummarizer : bool;
  lexrank : bool -> str -> nat -> option (list str)
}.

Definition SUMMARY_SENTENCE_COUNT : nat := 3.
Definition KEYWORD_COUNT : Z := 15.

(** [l[:n]] for an integer [n]: the first [n] elements, and for a
    negative [n] all but the last [-n]. *)
Definition slice_to {A} (n : Z) (l : list A) : list A :=
  if (0 <=? n)%Z then take (Z.to_nat n) l
  else take (length l - Z.to_nat (- n)) l.

Section Enrichment.
Variable lib : Libraries.

(** The [Rake] object of [extract_keywords]: without the stopword
    resource [Rake()]; with it [Rake(stopwords=...)], and [Rake()] when
    that raises.  [Rake()] stands outside any [try]: when it raises, the
    exception leaves [extract_keywords] ([None]). *)
Definition make_rake : option (str -> Extraction) :=
  if negb (nltk_data lib CorporaStopwords) then Rake lib None
  else
    match stopwords_words lib with
    | Some words =>
        match Rake lib (Some words) with
        | Some r => Some r
        | None => Rake lib None
        end
    | None => Rake lib None
    end.

(** [extract_keywords]: the list it returns, or [None] when an exception
    leaves the function. *)
Definition extract_keywords (text : str) (num_keywords : Z) : option (list str) :=
  if negb (truthy text) then Some []
  else if negb (nltk_data lib TokenizersPunkt) then Some []
  else
    match make_rake with
    | None => None
    | Some r =>
        match r text with
        | ExtractRaises => Some []
        | Ranked None => None
        | Ranked (Some ranked_phrases) => Some (slice_to num_keywords ranked_phrases)
        end
    end.

Definition generate_summary (text : str) (num_sentences : nat) : str :=
  if negb (truthy text) then []
  else if negb (SumyLexRankSummarizer lib) then []
  else if negb (nltk_data lib TokenizersPunkt) then []
  else
    match lexrank lib (nltk_data lib CorporaStopwords) text num_sentences with
    | None => []
    | Some summary_sentences => join [SPACE] summary_sentences
    end.

(** The cleaning comprehension of the main block. *)
Definition clean_record (a : ArticleData) : ArticleData :=
  {| pmid := pmid a; title := clean_text (Some (title a));
     abstract := clean_text (Some (abstract a)); pub_date := pub_date a;
     keywords := None; summary := None |}.

(** [article['keywords'] = value] *)
Definition set_keywords (value : list str) (article : ArticleData) : ArticleData :=
  {| pmid := pmid article; title := title article;
     abstract := abstract article; pub_date := pub_date article;
     keywords := Some value;
     summary := summary article |}.

Definition set_summary (article : ArticleData) : ArticleData :=
  {| pmid := pmid article; title := title article;
     abstract := abstract article; pub_date := pub_date article;
     keywords := keywords article;
     summary := Some (generate_summary (abstract article)
                                       SUMMARY_SENTENCE_COUNT) |}.

(** [for article in cleaned_articles_data: article['keywords'] =
    extract_keywords(...)]; an exception in one call leaves the loop and,
    nothing catching it, the run. *)
Fixpoint keyword_loop (data : list ArticleData) : option (list ArticleData) :=
  match data with
  | [] => Some []
  | article :: rest =>
      match extract_keywords (title article ++ u ". " ++ abstract article)
                             KEYWORD_COUNT with
      | None => None
      | Some value =>
          option_map (cons (set_keywords value article)) (keyword_loop rest)
      end
  end.

(** [if punkt_available: ...] *)
Definition keyword_stage (data : list ArticleData) : option (list ArticleData) :=
  if nltk_data lib TokenizersPunkt then keyword_loop data else Some data.

(** [if SumyLexRankSummarizer and punkt_available: ...] *)
Definition summary_stage (data : list ArticleData) : list ArticleData :=
  if SumyLexRankSummarizer lib && nltk_data lib TokenizersPunkt
  then List.map set_summary data else data.

(** Cleaning, keyword extraction and summarization, in the order of the
    main block; [None] when the keyword stage ends with an exception. *)
Definition enrich (articles_data : list ArticleData) : option (list ArticleData) :=
  option_map summary_stage (keyword_stage (List.map clean_record articles_data)).
End Enrichment.

(** *** The [articles] table and the session

    A row of the table; every column can hold [NULL] in the object the
    mapper returns.  The JSON column holds a list of strings when the
    pipeline wrote it; any other JSON value is kept as its [str()]
    rendering. *)
Inductive Json : Type :=
| JsonList (items : list str)
| JsonOther (rendering : str).

Record Article : Type := mkArticle {
  id : option str;
  a_title : option str;
  a_abstract : option str;
  a_pub_date : option str;
  a_keywords : option Json;
  a_summary : option str
}.

Inductive Op : Type :=
| OpQuery (pmid : str)
| OpAdd (pmid : str)
| OpCommit
| OpRollback
| OpClose.

(** A session: the committed table, the rows flushed inside the open
    transaction, the objects added and not flushed yet, and the calls made
    so far. *)
Record Session : Type := mkSession {
  durable : list Article;
  flushed : list Article;
  pending : list Article;
  log : list Op
}.

Record Counts : Type := mkCounts {
  stored_count : nat;
  skipped_count : nat;
  error_count : nat
}.

Definition open_session (table : list Article) : Session :=
  {| durable := table; flushed := []; pending := []; log := [] |}.

(** What a query inside the transaction sees. *)
Definition visible (s : Session) : list Article := durable s ++ flushed s.

(** Every row the session holds, durable or not. *)
Definition staged (s : Session) : list Article :=
  durable s ++ flushed s ++ pending s.

Definition flush (s : Session) : Session :=
  {| durable := durable s; flushed := flushed s ++ pending s; pending := [];
     log := log s |}.

Definition has_id (pmid : str) (row : Article) : bool :=
  match id row with
  | Some i => str_eqb i pmid
  | None => false
  end.

(** [session.query(Article).filter_by(id=pmid).first()]; the session
    flushes before it queries (autoflush is the default of
    [sessionmaker]). *)
Definition query_first (pmid : str) (s : Session) : Session * option Article :=
  let s := flush s in
  ({| durable := durable s; flushed := flushed s; pending := pending s;
      log := log s ++ [OpQuery pmid] |},
   List.find (has_id pmid) (visible s)).

Definition add (row : Article) (s : Session) : Session :=
  {| durable := durable s; flushed := flushed s; pending := pending s ++ [row];
     log := log s ++ [OpAdd (default [] (id row))] |}.

Definition new_article (pmid : str) (article_data : ArticleData) : Article :=
  {| id := Some pmid;
     a_title := Some (title article_data);
     a_abstract := Some (abstract article_data);
     a_pub_date := Some (pub_date article_data);
     a_keywords := Some (JsonList (default [] (keywords article_data)));
     a_summary := Some (default NOT_AVAILABLE (summary article_data)) |}.

(** A call that raises: it is made, and the rows of the session stay as
    they are. *)
Definition raised (op : Op) (s : Session) : Session :=
  {| durable := durable s; flushed := flushed s; pending := pending s;
     log := log s ++ [op] |}.

(** The body of the staging loop.  [query_raises] tells whether the
    database call of this record raises; the handler counts the record as
    an error and the loop goes on. *)
Definition stage (query_raises : bool) (article_data : ArticleData)
    (st : Session * Counts) : Session * Counts :=
  let (session, n) := st in
  match pmid article_data with
  | Some (c :: p) =>
      let pmid := c :: p in
      if query_raises then
        (raised (OpQuery pmid) session,
         {| stored_count := stored_count n;
            skipped_count := skipped_count n;
            error_count := S (error_count n) |})
      else
        match query_first pmid session with
        | (session, Some existing) =>
            (session, {| stored_count := stored_count n;
                         skipped_count := S (skipped_count n);
                         error_count := error_count n |})
        | (session, None) =>
            (add (new_article pmid article_data) session,
             {| stored_count := S (stored_count n);
                skipped_count := skipped_count n;
                error_count := error_count n |})
        end
  | _ =>
      (session, {| stored_count := stored_count n;
                   skipped_count := S (skipped_count n);
                   error_count := error_count n |})
  end.

Fixpoint stage_all (query_raises : nat -> bool) (i : nat)
    (articles_data : list ArticleData) (st : Session * Counts)
  : Session * Counts :=
  match articles_data with
  | [] => st
  | article_data :: rest =>
      stage_all query_raises (S i) rest (stage (query_raises i) article_data st)
  end.

(** [session.commit()] flushes and makes the transaction durable; when it
    raises, the handler calls [session.rollback()]. *)
Definition commit (commit_ok : bool) (s : Session) : Session :=
  if commit_ok then
    let s := flush s in
    {| durable := visible s; flushed := []; pending := [];
       log := log s ++ [OpCommit] |}
  else
    {| durable := durable s; flushed := []; pending := [];
       log := log s ++ [OpCommit; OpRollback] |}.

Definition close (s : Session) : Session :=
  {| durable := durable s; flushed := []; pending := [];
     log := log s ++ [OpClose] |}.

(** The faults of one run: which database calls raise. *)
Record Faults : Type := mkFaults {
  query_raises : nat -> bool;
  commit_ok : bool
}.

Definition zero_counts : Counts :=
  {| stored_count := 0; skipped_count := 0; error_count := 0 |}.

(** [store_articles]: the session after the run and the three counters. *)
Definition store_articles (faults : Faults) (articles_data : list ArticleData)
    (table : list Article) : Session * Counts :=
  let session := open_session table in
  let (session, n) :=
    stage_all (query_raises faults) 0 articles_data (session, zero_counts) in
  (close (commit (commit_ok faults) session), n).

(** The table a run leaves behind. *)
Definition table_after (faults : Faults) (articles_data : list ArticleData)
    (table : list Article) : list Article :=
  durable (fst (store_articles faults articles_data table)).

(** A sequence of runs, each with its input and its faults. *)
Definition runs (batches : list (Faults * list ArticleData))
    (table : list Article) : list Article :=
  fold_left (fun t b => table_after (fst b) (snd b) t) batches table.

(** What one pass of the loop body does to the session: the durable table
    is untouched and at most one row, with a fresh identifier, is added
    behind the rows the session holds. *)
Inductive stage_outcome (article_data : ArticleData) (s : Session) (n : Counts)
  : Session * Counts -> Prop :=
| staged_skip (s' : Session) :
    durable s' = durable s -> staged s' = staged s ->
    stage_outcome article_data s n
      (s', {| stored_count := stored_count n;
              skipped_count := S (skipped_count n);
              error_count := error_count n |})
| staged_error (s' : Session) :
    durable s' = durable s -> staged s' = staged s ->
    stage_outcome article_data s n
      (s', {| stored_count := stored_count n;
             skipped_count := skipped_count n;
             error_count := S (error_count n) |})
| staged_insert (s' : Session) (p : str) :
    pmid article_data = Some p ->
    List.find (has_id p) (staged s) = None ->
    durable s' = durable s ->
    staged s' = staged s ++ [new_article p article_data] ->
    stage_outcome article_data s n
      (s', {| stored_count := S (stored_count n);
              skipped_count := skipped_count n;
              error_count := error_count n |}).

(** The calls of the staging loop: queries and additions. *)
Definition staging_op (op : Op) : bool :=
  match op with
  | OpQuery _ | OpAdd _ => true
  | _ => false
  end.

Definition is_commit (op : Op) : bool :=
  match op with
  | OpCommit => true
  | _ => false
  end.

Definition no_faults : Faults :=
  {| query_raises := fun _ => false; commit_ok := true |}.

(** *** The search call and the main block *)

Definition NCBI_API_KEY : str := u "Your_API_key".

(** [term.replace(' ', '+')], the only encoding applied to the search
    term before it is put into the URL. *)
Definition encode_term (term : str) : str := str_replace [SPACE] (u "+") term.

(** [search_pubmed].  [response] is the parsed answer of the search call,
    [None] when the request or the parser raised.  An [Id] element without
    text contributes [None] to the identifier list. *)
Definition search_pubmed (response : option Element)
  : list (option str) * option str * option str :=
  match response with
  | None => ([], None, None)
  | Some root =>
      (List.map text (findall root (DescendantChild (u "IdList") (u "Id"))),
       findtext root (Child (u "WebEnv")),
       findtext root (Child (u "QueryKey")))
  end.

(** [",".join(pubmed_ids)] needs every entry to be a string; with a
    [None] entry it raises [TypeError]. *)
Fixpoint joinable (pubmed_ids : list (option str)) : option (list str) :=
  match pubmed_ids with
  | [] => Some []
  | Some i :: rest => option_map (cons i) (joinable rest)
  | None :: _ => None
  end.

(** What a run of the main block leaves: the table, and the records
    written to the JSON file when that file is written. *)
Record Outcome : Type := mkOutcome {
  table_of : list Article;
  dumped : option (list ArticleData)
}.

(** The main block.  [esearch] and [efetch] are the answers of the two
    remote calls.  The result is [None] when the run ends with an
    exception that nothing catches: the [join] of
    [fetch_article_details_with_abstract] stands before its [try], and the
    keyword stage has no [try] around it. *)
Definition main (lib : Libraries) (esearch efetch : option Element)
    (faults : Faults) (table : list Article) : option Outcome :=
  if str_eqb NCBI_API_KEY (u "YOUR_GENERATED_API_KEY_HERE") then
    Some {| table_of := table; dumped := None |}
  else
    let '(article_ids, webenv, query_key) := search_pubmed esearch in
    match article_ids with
    | [] => Some {| table_of := table; dumped := None |}
    | _ :: _ =>
        match joinable article_ids with
        | None => None
        | Some ids =>
            let articles_data := fetch_article_details_with_abstract ids efetch in
            match enrich lib articles_data with
            | None => None
            | Some [] => Some {| table_of := table; dumped := Some [] |}
            | Some cleaned_articles_data =>
                Some {| table_of := table_after faults cleaned_articles_data table;
                        dumped := Some cleaned_articles_data |}
            end
        end
    end.

End Fetcher.

(** ** [app.py]: the read API *)

Module App.

Import Fetcher.

Record Display : Type := mkDisplay {
  d_id : str;
  d_title : str;
  d_abstract : str;
  d_pub_date : str;
  d_keywords : str;
  d_summary : str
}.

(** The body of the conversion loop. *)
Definition to_dict (article : Article) : Display :=
  let keywords_data := default (JsonList []) (a_keywords article) in
  let keywords_display :=
    match keywords_data with
    | JsonList l => join (u ", ") l
    | JsonOther rendering => rendering
    end in
  {| d_id := default (u "N/A") (id article);
     d_title := default (u "Untitled") (a_title article);
     d_abstract := default (u "No abstract.") (a_abstract article);
     d_pub_date := default (u "N/A") (a_pub_date article);
     d_keywords := keywords_display;
     d_summary := default (u "No summary.") (a_summary article) |}.

(** The mapper returns [None] in place of an object for a row whose
    primary key is [NULL]. *)
Definition orm_load (row : Article) : option Article :=
  match id row with
  | Some _ => Some row
  | None => None
  end.

(** The conversion loop: reading an attribute of [None] raises. *)
Fixpoint convert (articles_from_db : list (option Article))
    (articles_list_of_dicts : list Display) : option (list Display) :=
  match articles_from_db with
  | [] => Some articles_list_of_dicts
  | Some article :: rest =>
      convert rest (articles_list_of_dicts ++ [to_dict article])
  | None :: _ => None
  end.

(** The body of [get_articles_from_db].  [_engine] is [None] when no
    engine could be created; otherwise it holds the rows the query
    returns, [None] when the query raised.  Every exception of the body
    is caught and gives the empty list. *)
Definition read_table (_engine : option (option (list Article)))
  : list Display :=
  match _engine with
  | None => []
  | Some None => []
  | Some (Some rows) =>
      match convert (List.map orm_load rows) [] with
      | Some articles_list_of_dicts => articles_list_of_dicts
      | None => []
      end
  end.

(** [get_articles_from_db] as decorated with [st.cache_data]: its only
    parameter, [_engine], is left out of the cache key, so the first call
    runs the body and stores its result, and every later call returns the
    stored result.  [cache] is the stored result; the function returns its
    result and the cache after the call. *)
Definition get_articles_from_db (cache : option (list Display))
    (_engine : option (option (list Article)))
  : list Display * option (list Display) :=
  match cache with
  | Some stored => (stored, cache)
  | None =>
      let result := read_table _engine in
      (result, Some result)
  end.

(** The sentinel the summary section of the page compares with. *)
Definition RENDERER_SUMMARY_SENTINEL : str := u "No summary available.".

(** *** The page: search filter, statistics, keyword badges

    [lower] stands for [str.lower()], whose Unicode case tables are not
    part of the repository. *)
Section Page.
Variable lower : str -> str.

(** The condition of the filtering comprehension. *)
Definition matches_query (search_query_lower : str) (article : Display) : bool :=
  contains search_query_lower (lower (d_title article))
  || contains search_query_lower (lower (d_abstract article))
  || (truthy (d_keywords article)
      && contains search_query_lower (lower (d_keywords article))).

Definition filtered_articles (search_query : str) (all_articles_data : list Display)
  : list Display :=
  if truthy search_query
  then List.filter (matches_query (lower search_query)) all_articles_data
  else all_articles_data.
End Page.

(** The number shown as "Publication Years": the distinct four-character
    prefixes of the dates that are not ["N/A"]. *)
Definition publication_years (all_articles_data : list Display) : nat :=
  length (remove_dups
            (List.map (fun article => take 4 (d_pub_date article))
               (List.filter
                  (fun article => negb (str_eqb (d_pub_date article) (u "N/A")))
                  all_articles_data))).

(** The keywords shown as badges: the pieces of the display string,
    trimmed, without the empty ones; [None] when the page shows its
    notice instead. *)
Definition keyword_list (keywords : str) : option (list str) :=
  if truthy keywords && negb (str_eqb keywords (u "No keywords available."))
  then Some (List.filter truthy (List.map strip (split (u ", ") keywords)))
  else None.

Definition BACKTICK : str := [96].

Definition keyword_badges (keywords : str) : option str :=
  option_map (fun l => join [SPACE]
                         (List.map (fun k => BACKTICK ++ k ++ BACKTICK) l))
             (keyword_list keywords).

End App.

(** ** Sample documents and records *)

Module Samples.

Import Fetcher.

Definition leaf (name : string) (content : string) : Element :=
  mkElement (u name) [] (Some (u content)) [] None.

Definition node (name : string) (cs : list Element) : Element :=
  mkElement (u name) [] None cs None.

Definition citation (pmid : string) : Element :=
  node "MedlineCitation" [leaf "PMID" pmid].

(** A record with a title, an abstract and a complete date. *)
Definition complete_article : Element :=
  node "PubmedArticle"
    [citation "2";
     node "Article"
       [leaf "ArticleTitle" "Deep learning";
        node "Abstract" [leaf "AbstractText" "We study models."];
        node "PubDate" [leaf "Year" "2024"; leaf "Month" "01"; leaf "Day" "15"]]].

(** A record without a title element. *)
Definition untitled_article : Element :=
  node "PubmedArticle"
    [citation "1"; node "Article" [node "PubDate" [leaf "Year" "2023"]]].

(** A record without a date element. *)
Definition undated_article : Element :=
  node "PubmedArticle"
    [citation "1"; node "Article" [leaf "ArticleTitle" "No date here"]].

(** The record of the date scenario: year and month, no day, a free-text
    date. *)
Definition medline_article : Element :=
  node "PubmedArticle"
    [citation "3";
     node "Article"
       [leaf "ArticleTitle" "Fallback";
        node "PubDate"
          [leaf "Year" "2023"; leaf "Month" "06"; leaf "MedlineDate" "2023 Jun"]]].

Definition article_set (articles : list Element) : Element :=
  node "PubmedArticleSet" articles.

(** An enriched record, and the table left by a first run that stored the
    identifier ["1"]. *)
Definition enriched (pmid title : string) : ArticleData :=
  {| pmid := Some (u pmid); title := u title; abstract := u "Text.";
     pub_date := u "2024-01-15"; keywords := Some [u "text"];
     summary := Some (u "Text.") |}.

Definition first_table : list Article :=
  table_after no_faults [enriched "1" "Old title"] [].

Definition second_batch : list (Faults * list ArticleData) :=
  [(no_faults, [enriched "1" "New title"; enriched "2" "Other"])].

(** Libraries that are all available; the keyword ranker returns the text
    it is given as its only phrase, the summarizer the text as its only
    sentence. *)
Definition echo_libraries : Libraries :=
  {| nltk_data := fun _ => true;
     stopwords_words := Some [u "the"];
     Rake := fun _ => Some (fun text => Ranked (Some [text]));
     SumyLexRankSummarizer := true;
     lexrank := fun _ text _ => Some [text] |}.

(** A raw record with a title and an empty abstract. *)
Definition title_only : ArticleData :=
  {| pmid := Some (u "2"); title := u "Sepsis"; abstract := [];
     pub_date := u "2024"; keywords := None; summary := None |}.

Definition keyword_row : Article :=
  {| id := Some (u "7"); a_title := Some (u "T"); a_abstract := Some (u "A");
     a_pub_date := Some (u "2024");
     a_keywords := Some (JsonList [u "deep learning"; u "sepsis"]);
     a_summary := None |}.

(** The answer of a search that finds the identifier ["2"], the answer of
    a search with an [Id] element that has no text, and the answer of the
    detail call for ["2"]. *)
Definition search_result : Element :=
  node "eSearchResult"
    [node "IdList" [leaf "Id" "2"]; leaf "WebEnv" "env"; leaf "QueryKey" "1"].

Definition search_result_blank_id : Element :=
  node "eSearchResult" [node "IdList" [leaf "Id" "2"; node "Id" []]].

Definition detail_result : Element := article_set [complete_article].

(** Libraries without the tokenizer resource. *)
Definition no_punkt : Libraries :=
  {| nltk_data := fun _ => false;
     stopwords_words := None;
     Rake := fun _ => None;
     SumyLexRankSummarizer := true;
     lexrank := fun _ text _ => Some [text] |}.

(** The tokenizer resource is there and the stopword resource is not:
    [Rake()] raises a [LookupError]. *)
Definition no_stopwords : Libraries :=
  {| nltk_data := fun r => match r with TokenizersPunkt => true | _ => false end;
     stopwords_words := None;
     Rake := fun stopwords =>
               match stopwords with
               | Some _ => Some (fun text => Ranked (Some [text]))
               | None => None
               end;
     SumyLexRankSummarizer := true;
     lexrank := fun _ text _ => Some [text] |}.

(** A row in which only the summary is [NULL]. *)
Definition summary_null_row : Article :=
  {| id := Some (u "7"); a_title := Some (u "T"); a_abstract := Some (u "A");
     a_pub_date := Some (u "2024"); a_keywords := Some (JsonList [u "sepsis"]);
     a_summary := None |}.


(** A lower-casing that maps the letters [A]-[Z] and leaves every other
    character as it is. *)
Definition ascii_lower (s : str) : str :=
  List.map (fun c => if (65 <=? c) && (c <=? 90) then c + 32 else c) s.

Definition shown_article (title keywords : string) : App.Display :=
  {| App.d_id := u "1"; App.d_title := u title; App.d_abstract := u "Text.";
     App.d_pub_date := u "2024-01-15"; App.d_keywords := u keywords;
     App.d_summary := u "Text." |}.

End Samples.

(** ** Notions used to state the further properties *)

Module Notions.

Import Fetcher.

(** The record carries the identifier [p]. *)
Definition pmid_is (p : str) (article_data : ArticleData) : bool :=
  match pmid article_data with
  | Some q => str_eqb q p
  | None => false
  end.

(** What the read API shows for a row that [store_articles] built from
    [article_data]. *)
Definition shown (article_data : ArticleData) : App.Display :=
  {| App.d_id := default [] (pmid article_data);
     App.d_title := title article_data;
     App.d_abstract := abstract article_data;
     App.d_pub_date := pub_date article_data;
     App.d_keywords := join (u ", ") (default [] (keywords article_data));
     App.d_summary := default (u "N/A") (summary article_data) |}.

(** The records the main block hands to [store_articles]. *)
Definition ingested (lib : Libraries) (esearch efetch : option Element)
  : list ArticleData :=
  match joinable (fst (fst (search_pubmed esearch))) with
  | Some ids =>
      default [] (enrich lib (fetch_article_details_with_abstract ids efetch))
  | None => []
  end.

End Notions.

Import Fetcher.

(** * Properties *)

(** ** Scanning substitutions *)

Section ScanFacts.
Variable matcher : str -> option nat.
Variable repl : str.

Lemma sub_from_drop (k : nat) (s : str) :
  sub_from matcher repl k s = sub_all matcher repl (drop k s).
Proof.
  revert k. induction s as [|c r IH]; intros [|k]; simpl; try reflexivity.
  apply IH.
Qed.

(** The equation a reader of [re.sub] expects: replace the match at the
    head and go on behind it, or copy one character. *)
Lemma sub_all_cons (c : N) (r : str) :
  sub_all matcher repl (c :: r) =
  match matcher (c :: r) with
  | Some (S k) => repl ++ sub_all matcher repl (drop k r)
  | _ => c :: sub_all matcher repl r
  end.
Proof.
  unfold sub_all at 1. simpl.
  destruct (matcher (c :: r)) as [[|k]|]; try reflexivity.
  now rewrite sub_from_drop.
Qed.

Lemma sub_all_no_match (s : str) :
  matches_somewhere matcher s = false -> sub_all matcher repl s = s.
Proof.
  induction s as [|c r IH]; [reflexivity|].
  rewrite sub_all_cons. simpl.
  destruct (matcher (c :: r)) as [[|k]|]; try discriminate;
    intros H; now rewrite IH.
Qed.
End ScanFacts.

Lemma strip_prefix_app (old s rest : str) :
  strip_prefix old s = Some rest -> s = old ++ rest.
Proof.
  revert s. induction old as [|o old IH]; intros s; simpl.
  - now intros [= ->].
  - destruct s as [|c s]; [discriminate|].
    destruct (N.eqb_spec o c) as [->|]; [|discriminate].
    intros H. now rewrite (IH _ H).
Qed.

Lemma literal_at_Some (old s : str) (n : nat) :
  literal_at old s = Some n ->
  n = length old /\ s = old ++ drop (length old) s.
Proof.
  unfold literal_at. destruct (strip_prefix old s) as [rest|] eqn:Hp;
    [|discriminate].
  intros [= <-]. apply strip_prefix_app in Hp. subst s.
  now rewrite drop_app_length.
Qed.

(** Replacing a string by itself changes nothing. *)
Lemma str_replace_same (c : N) (old s : str) :
  str_replace (c :: old) (c :: old) s = s.
Proof.
  unfold str_replace.
  remember (length s) as n eqn:Hn.
  assert (Hle : (length s <= n)%nat) by lia. clear Hn.
  revert s Hle. induction n as [|n IH]; intros [|x r] Hle; simpl in Hle;
    try reflexivity; try lia.
  rewrite sub_all_cons.
  destruct (literal_at (c :: old) (x :: r)) as [k|] eqn:Hp.
  - apply literal_at_Some in Hp as [-> Hs]. cbn [length].
    injection Hs as -> Hr. rewrite IH by (rewrite length_drop; lia).
    simpl. now rewrite <- Hr.
  - rewrite IH; [reflexivity|lia].
Qed.

(** ** Whitespace *)

Lemma spaces_at_cons (c : N) (r : str) :
  spaces_at (c :: r) =
  if Py_UNICODE_ISSPACE c then Some (S (space_run r)) else None.
Proof. unfold spaces_at. simpl. now destruct (Py_UNICODE_ISSPACE c). Qed.

Lemma space_run_drop (s : str) :
  starts_with_space (drop (space_run s) s) = false.
Proof.
  induction s as [|c r IH]; [reflexivity|]. simpl.
  destruct (Py_UNICODE_ISSPACE c) eqn:E; simpl; [exact IH|exact E].
Qed.

Lemma sub_spaces_head (s : str) :
  starts_with_space s = false ->
  starts_with_space (sub_all spaces_at [SPACE] s) = false.
Proof.
  destruct s as [|c r]; [reflexivity|]. simpl. intros E.
  rewrite sub_all_cons, spaces_at_cons, E. simpl. exact E.
Qed.

Lemma sub_spaces_collapsed (s : str) :
  collapsed (sub_all spaces_at [SPACE] s) = true.
Proof.
  remember (length s) as n eqn:Hn.
  assert (Hle : (length s <= n)%nat) by lia. clear Hn.
  revert s Hle. induction n as [|n IH]; intros [|c r] Hle; simpl in Hle;
    try reflexivity; try lia.
  rewrite sub_all_cons, spaces_at_cons.
  destruct (Py_UNICODE_ISSPACE c) eqn:E.
  - simpl. rewrite sub_spaces_head by apply space_run_drop.
    rewrite IH; [reflexivity|]. rewrite length_drop. lia.
  - simpl. rewrite E. apply IH. lia.
Qed.

Lemma collapsed_fixed (s : str) :
  collapsed s = true -> sub_all spaces_at [SPACE] s = s.
Proof.
  induction s as [|c r IH]; [reflexivity|].
  cbn [collapsed]. intros H. apply andb_prop in H as [H Hr].
  rewrite sub_all_cons, spaces_at_cons.
  destruct (Py_UNICODE_ISSPACE c) eqn:E.
  - apply andb_prop in H as [Hc Hs].
    apply N.eqb_eq in Hc. subst c. apply negb_true_iff in Hs.
    destruct r as [|d r']; [reflexivity|].
    simpl in Hs. cbn [space_run]. rewrite Hs, drop_0, IH by assumption.
    reflexivity.
  - now rewrite IH.
Qed.

Lemma collapsed_tail (c : N) (r : str) :
  collapsed (c :: r) = true -> collapsed r = true.
Proof. cbn [collapsed]. intros H. now apply andb_prop in H as [_ H]. Qed.

Lemma starts_with_space_prefix (a b : str) :
  starts_with_space (a ++ b) = false -> starts_with_space a = false.
Proof. destruct a; [reflexivity|exact (fun H => H)]. Qed.

Lemma collapsed_prefix (a b : str) :
  collapsed (a ++ b) = true -> collapsed a = true.
Proof.
  induction a as [|c a IH]; [reflexivity|].
  cbn [app collapsed]. intros H. apply andb_prop in H as [H Hr].
  rewrite (IH Hr), andb_true_r.
  destruct (Py_UNICODE_ISSPACE c); [|reflexivity].
  apply andb_prop in H as [-> Hs]. apply negb_true_iff in Hs.
  now rewrite (starts_with_space_prefix a b Hs).
Qed.

(** [lstrip] drops a prefix, [rstrip] a suffix. *)
Lemma lstrip_split (s : str) : exists w, s = w ++ lstrip s.
Proof.
  induction s as [|c r [w IH]]; [now exists []|]. simpl.
  destruct (Py_UNICODE_ISSPACE c).
  - exists (c :: w). simpl. now rewrite <- IH.
  - now exists [].
Qed.

Lemma rstrip_split (s : str) : exists w, s = rstrip s ++ w.
Proof.
  unfold rstrip. destruct (lstrip_split (rev s)) as [w H].
  exists (rev w). rewrite <- rev_app_distr, <- H. now rewrite rev_involutive.
Qed.

Lemma lstrip_head (s : str) : starts_with_space (lstrip s) = false.
Proof.
  induction s as [|c r IH]; [reflexivity|]. simpl.
  destruct (Py_UNICODE_ISSPACE c) eqn:E; [exact IH|exact E].
Qed.

Lemma lstrip_fixed (s : str) : starts_with_space s = false -> lstrip s = s.
Proof. destruct s as [|c r]; [reflexivity|]. simpl. now intros ->. Qed.

Lemma collapsed_lstrip (s : str) :
  collapsed s = true -> collapsed (lstrip s) = true.
Proof.
  induction s as [|c r IH]; [reflexivity|]. intros H. simpl.
  destruct (Py_UNICODE_ISSPACE c); [|exact H].
  apply IH. now apply collapsed_tail in H.
Qed.

Lemma collapsed_strip (s : str) :
  collapsed s = true -> collapsed (strip s) = true.
Proof.
  intros H. unfold strip.
  destruct (rstrip_split (lstrip s)) as [w Hw].
  apply collapsed_lstrip in H. rewrite Hw in H.
  now apply collapsed_prefix in H.
Qed.

Lemma strip_fixed (s : str) : strip (strip s) = strip s.
Proof.
  unfold strip.
  assert (Hl : lstrip (rstrip (lstrip s)) = rstrip (lstrip s)).
  { apply lstrip_fixed.
    destruct (rstrip_split (lstrip s)) as [w Hw].
    apply (starts_with_space_prefix _ w). rewrite <- Hw. apply lstrip_head. }
  rewrite Hl. unfold rstrip. rewrite rev_involutive.
  now rewrite (lstrip_fixed _ (lstrip_head _)).
Qed.

(** Collapsing and trimming a second time changes nothing. *)
Lemma normalized_fixed (t : str) :
  strip (sub_all spaces_at [SPACE] (strip (sub_all spaces_at [SPACE] t)))
  = strip (sub_all spaces_at [SPACE] t).
Proof.
  rewrite (collapsed_fixed (strip _)).
  - apply strip_fixed.
  - apply collapsed_strip, sub_spaces_collapsed.
Qed.

(** The first four [replace] calls of [clean_text] replace a character by
    itself; what is left is the apostrophe repair, the two patterns and
    [strip]. *)
Lemma clean_text_unfold (x : str) :
  clean_text (Some x) =
  strip (sub_all spaces_at [SPACE]
           (sub_all tag_at []
              (str_replace MOJIBAKE_APOSTROPHE (u "'") x))).
Proof.
  unfold clean_text. change (u "&") with [38].
  now rewrite !str_replace_same.
Qed.

(** ** The text normalizer *)

(** C2, as the specification states it, fails: cleaning ["<" LF ">"] gives
    ["< >"] (the dot of the tag pattern does not cross the newline, which
    then becomes a blank), and cleaning that again gives the empty
    string. *)
Lemma clean_text_not_idempotent :
  clean_text (Some (clean_text (Some [LT; LF; GT])))
  <> clean_text (Some [LT; LF; GT]).
Proof. vm_compute. discriminate. Qed.

(** C2 (amended): for every string [x] whose cleaned form holds no
    tag-shaped substring and no mis-encoded apostrophe sequence, cleaning
    the cleaned form again returns it unchanged:
    [clean(clean(x)) == clean(x)]. *)
Theorem clean_text_idempotent_markup_free (x : str) :
  matches_somewhere tag_at (clean_text (Some x)) = false ->
  matches_somewhere (literal_at MOJIBAKE_APOSTROPHE) (clean_text (Some x)) = false ->
  clean_text (Some (clean_text (Some x))) = clean_text (Some x).
Proof.
  intros Htag Hapo.
  rewrite (clean_text_unfold (clean_text (Some x))).
  unfold str_replace, MOJIBAKE_APOSTROPHE in *.
  rewrite (sub_all_no_match _ _ _ Hapo), (sub_all_no_match _ _ _ Htag).
  rewrite (clean_text_unfold x). apply normalized_fixed.
Qed.

Lemma clean_text_idempotent_markup_free_witness :
  let x := u "A &amp; B <b>bold</b>" ++ [LF; LF] ++ u "  text" in
  matches_somewhere tag_at (clean_text (Some x)) = false
  /\ matches_somewhere (literal_at MOJIBAKE_APOSTROPHE) (clean_text (Some x)) = false
  /\ clean_text (Some (clean_text (Some x))) = clean_text (Some x).
Proof.
  intros x.
  assert (Ht : matches_somewhere tag_at (clean_text (Some x)) = false)
    by (vm_compute; reflexivity).
  assert (Ha : matches_somewhere (literal_at MOJIBAKE_APOSTROPHE)
                 (clean_text (Some x)) = false)
    by (vm_compute; reflexivity).
  exact (conj Ht (conj Ha (clean_text_idempotent_markup_free x Ht Ha))).
Defined.

(** *** The amended statement is exact

    A substitution never makes the text longer when the replacement is not
    longer than the match, and makes it shorter when there is a match and
    the replacement is shorter. *)
Section ScanLength.
Variable matcher : str -> option nat.
Variable repl : str.
Hypothesis match_bounds :
  forall s k, matcher s = Some (S k) ->
              (length repl <= S k)%nat /\ (S k <= length s)%nat.

Lemma sub_all_length (s : str) :
  (length (sub_all matcher repl s) <= length s)%nat.
Proof.
  remember (length s) as n eqn:Hn.
  assert (Hle : (length s <= n)%nat) by lia.
  rewrite Hn. clear Hn. revert s Hle.
  induction n as [|n IH]; intros [|c r] Hle; simpl in Hle;
    try (simpl; lia).
  rewrite sub_all_cons.
  destruct (matcher (c :: r)) as [[|k]|] eqn:Hm;
    try (simpl; specialize (IH r); lia).
  destruct (match_bounds _ _ Hm) as [H1 H2]. simpl in H2.
  rewrite List.length_app.
  specialize (IH (drop k r)). rewrite length_drop in IH. simpl. lia.
Qed.

Hypothesis match_shrinks :
  forall s k, matcher s = Some (S k) -> (length repl < S k)%nat.

Lemma sub_all_shrinks (s : str) :
  matches_somewhere matcher s = true ->
  (length (sub_all matcher repl s) < length s)%nat.
Proof.
  induction s as [|c r IH]; [discriminate|].
  rewrite sub_all_cons. cbn [matches_somewhere].
  destruct (matcher (c :: r)) as [[|k]|] eqn:Hm;
    try (intros H; specialize (IH H); simpl; lia).
  intros _. destruct (match_bounds _ _ Hm) as [_ H2]. simpl in H2.
  pose proof (match_shrinks _ _ Hm) as H3.
  pose proof (sub_all_length (drop k r)) as H4. rewrite length_drop in H4.
  rewrite List.length_app. simpl. lia.
Qed.
End ScanLength.

Lemma literal_at_bounds (old s : str) (k : nat) :
  literal_at old s = Some (S k) -> S k = length old /\ (S k <= length s)%nat.
Proof.
  intros H. apply literal_at_Some in H as [H1 H2]. split; [exact H1|].
  apply (f_equal (@length N)) in H2. rewrite List.length_app in H2. lia.
Qed.

Lemma close_at_bounds (s : str) (n : nat) :
  close_at s = Some n -> (n <= length s)%nat.
Proof.
  revert n. induction s as [|c r IH]; intros n; simpl; [discriminate|].
  destruct (c =? GT); [intros [= <-]; lia|].
  destruct (c =? LF); [discriminate|].
  destruct (close_at r) as [m|]; [|discriminate].
  intros [= <-]. specialize (IH m eq_refl). lia.
Qed.

Lemma tag_at_bounds (s : str) (k : nat) :
  tag_at s = Some (S k) -> (0 < S k)%nat /\ (S k <= length s)%nat.
Proof.
  destruct s as [|c r]; simpl; [discriminate|].
  destruct (c =? LT); [|discriminate].
  destruct (close_at r) as [m|] eqn:E; [|discriminate].
  intros [= <-]. apply close_at_bounds in E. lia.
Qed.

Lemma space_run_bound (s : str) : (space_run s <= length s)%nat.
Proof.
  induction s as [|c r IH]; simpl; [lia|].
  destruct (Py_UNICODE_ISSPACE c); lia.
Qed.

Lemma spaces_at_bounds (s : str) (k : nat) :
  spaces_at s = Some (S k) -> (1 <= S k)%nat /\ (S k <= length s)%nat.
Proof.
  unfold spaces_at. pose proof (space_run_bound s) as H.
  destruct (space_run s); [discriminate|]. intros [= <-]. lia.
Qed.

Lemma strip_length (s : str) : (length (strip s) <= length s)%nat.
Proof.
  unfold strip.
  destruct (rstrip_split (lstrip s)) as [w Hw].
  destruct (lstrip_split s) as [v Hv].
  apply (f_equal (@length N)) in Hw, Hv.
  rewrite List.length_app in Hw, Hv. lia.
Qed.

Lemma clean_text_length (x : str) :
  (length (clean_text (Some x))
   <= length (sub_all tag_at [] (str_replace MOJIBAKE_APOSTROPHE (u "'") x)))%nat.
Proof.
  rewrite clean_text_unfold.
  etransitivity; [apply strip_length|].
  apply sub_all_length. intros s k H. now apply spaces_at_bounds.
Qed.

(** Where the cleaned form still holds a tag or the apostrophe sequence,
    cleaning it again gives a shorter string: the condition of the
    amended C2 is also necessary. *)
Lemma clean_text_idempotent_only_markup_free (x : str) :
  clean_text (Some (clean_text (Some x))) = clean_text (Some x) ->
  matches_somewhere tag_at (clean_text (Some x)) = false
  /\ matches_somewhere (literal_at MOJIBAKE_APOSTROPHE) (clean_text (Some x))
     = false.
Proof.
  set (y := clean_text (Some x)). intros Heq.
  pose proof (clean_text_length y) as Hlen. rewrite Heq in Hlen.
  assert (Htags : forall s,
             (length (sub_all tag_at [] s) <= length s)%nat).
  { intros s. apply sub_all_length. intros t k H.
    apply tag_at_bounds in H. simpl. lia. }
  assert (Hmoj : matches_somewhere (literal_at MOJIBAKE_APOSTROPHE) y = false).
  { destruct (matches_somewhere (literal_at MOJIBAKE_APOSTROPHE) y) eqn:E;
      [|reflexivity].
    apply (sub_all_shrinks _ (u "'")) in E.
    - specialize (Htags (str_replace MOJIBAKE_APOSTROPHE (u "'") y)).
      unfold str_replace, MOJIBAKE_APOSTROPHE in *. lia.
    - intros s k H. apply literal_at_bounds in H as [H1 H2].
      rewrite H1. simpl. split; [lia|]. rewrite H1 in H2. exact H2.
    - intros s k H. apply literal_at_bounds in H as [H1 _].
      rewrite H1. simpl. lia. }
  split; [|exact Hmoj].
  destruct (matches_somewhere tag_at y) eqn:E; [|reflexivity].
  unfold str_replace, MOJIBAKE_APOSTROPHE in Hlen, Hmoj.
  rewrite (sub_all_no_match _ _ _ Hmoj) in Hlen.
  apply (sub_all_shrinks _ []) in E.
  - lia.
  - intros s k H. apply tag_at_bounds in H. simpl. lia.
  - intros s k H. simpl. lia.
Qed.

(** C3: on the string of the specification the normalizer strips the tags
    and collapses the whitespace, and it leaves the entity as it is: the
    [replace] calls replace each character by itself, so ["&amp;"] is
    not decoded and the result is not ["A & B bold text"]. *)
Theorem clean_text_keeps_entity :
  clean_text (Some (u "A &amp; B <b>bold</b>" ++ [LF; LF] ++ u "  text"))
  = u "A &amp; B bold text"
  /\ clean_text (Some (u "A &amp; B <b>bold</b>" ++ [LF; LF] ++ u "  text"))
     <> u "A & B bold text".
Proof. vm_compute. split; [reflexivity|discriminate]. Qed.

(** ** The detail fetcher *)

Example parse_complete_article :
  parse_pubmed_article Samples.complete_article
  = Some {| pmid := Some (u "2"); title := u "Deep learning";
            abstract := u "We study models."; pub_date := u "2024-01-15";
            keywords := None; summary := None |}.
Proof. vm_compute. reflexivity. Qed.

Example parse_untitled_article :
  parse_pubmed_article Samples.untitled_article
  = Some {| pmid := Some (u "1"); title := u "N/A";
            abstract := []; pub_date := u "N/A";
            keywords := None; summary := None |}.
Proof. vm_compute. reflexivity. Qed.

(** The loop body raises exactly when the record has no [PubDate]
    element; a missing identifier, title, abstract or date part never
    raises. *)
Lemma parse_pubmed_article_raises (a : Element) :
  parse_pubmed_article a = None <-> find a (Descendant (u "PubDate")) = None.
Proof.
  unfold parse_pubmed_article.
  destruct (find a (Descendant (u "PubDate"))); split; congruence.
Qed.

Lemma parse_all_app (articles : list Element) (acc : list ArticleData) :
  parse_all articles acc
  = option_map (app acc) (parse_all articles []).
Proof.
  revert acc. induction articles as [|a rest IH]; intros acc; simpl.
  - now rewrite app_nil_r.
  - destruct (parse_pubmed_article a) as [r|]; [|reflexivity].
    rewrite (IH (acc ++ [r])), (IH [r]).
    destruct (parse_all rest []) as [rs|]; simpl; [|reflexivity].
    now rewrite <- app_assoc.
Qed.

(** When every record carries a date element, every record is returned. *)
Lemma parse_all_dated (articles : list Element) :
  Forall (fun a => find a (Descendant (u "PubDate")) <> None) articles ->
  exists rs, parse_all articles [] = Some rs /\ length rs = length articles.
Proof.
  induction 1 as [|a rest Ha _ [rs [IH Hlen]]]; simpl.
  - now exists [].
  - destruct (parse_pubmed_article a) as [r|] eqn:E.
    + rewrite parse_all_app, IH. exists (r :: rs). simpl. now rewrite Hlen.
    + now apply parse_pubmed_article_raises in E.
Qed.

(** C4: a record without a date element aborts the batch.  In a document
    of two records whose first record has no [PubDate] element, the loop
    body raises on the first record, the handler of the whole function
    returns the empty list, and the second, complete record is lost; the
    same document with a first record that only lacks its title yields
    both records. *)
Theorem missing_date_aborts_batch :
  fetch_article_details_with_abstract [u "1"; u "2"]
    (Some (Samples.article_set [Samples.undated_article; Samples.complete_article]))
  = []
  /\ length (fetch_article_details_with_abstract [u "1"; u "2"]
       (Some (Samples.article_set
                [Samples.untitled_article; Samples.complete_article])))
     = 2%nat.
Proof. vm_compute. split; reflexivity. Qed.

(** C5, as the specification states it, fails: the record parsed from a
    document without a title element has the title ["N/A"], which is not
    the empty string. *)
Lemma absent_title_not_empty :
  find Samples.untitled_article (Descendant (u "ArticleTitle")) = None
  /\ option_map title (parse_pubmed_article Samples.untitled_article)
     = Some (u "N/A")
  /\ option_map title (parse_pubmed_article Samples.untitled_article)
     <> Some [].
Proof. vm_compute. repeat split; discriminate. Qed.

(** C5 (amended): for every record parsed by the detail fetcher whose
    title element is absent, the title field of the result is the
    sentinel ["N/A"]. *)
Theorem absent_title_is_sentinel (a : Element) (r : ArticleData) :
  find a (Descendant (u "ArticleTitle")) = None ->
  parse_pubmed_article a = Some r ->
  title r = u "N/A".
Proof.
  unfold parse_pubmed_article. intros ->.
  destruct (find a (Descendant (u "PubDate"))); [|discriminate].
  now intros [= <-].
Qed.

Lemma absent_title_is_sentinel_witness :
  title {| pmid := Some (u "1"); title := u "N/A"; abstract := [];
           pub_date := u "N/A"; keywords := None; summary := None |}
  = u "N/A".
Proof.
  apply (absent_title_is_sentinel Samples.untitled_article).
  - vm_compute. reflexivity.
  - vm_compute. reflexivity.
Defined.

(** C6: for every parsed record, with [year], [month], [day] and
    [medline_date] the texts [findtext] finds under the record's
    [PubDate] element (a part is present when the element exists and its
    text is not empty): the publication date is [year-month-day] when the
    three parts are present, otherwise the medline date when it is
    present, otherwise ["N/A"]. *)
Theorem publication_date_fallback (a : Element) (r : ArticleData) :
  parse_pubmed_article a = Some r ->
  exists pub_date_element,
    find a (Descendant (u "PubDate")) = Some pub_date_element
    /\ let year := findtext pub_date_element (Child (u "Year")) in
       let month := findtext pub_date_element (Child (u "Month")) in
       let day := findtext pub_date_element (Child (u "Day")) in
       let medline_date := findtext pub_date_element (Child (u "MedlineDate")) in
       pub_date r =
       if truthy_opt year && truthy_opt month && truthy_opt day
       then default [] year ++ u "-" ++ default [] month ++ u "-" ++ default [] day
       else if truthy_opt medline_date then default [] medline_date
            else u "N/A".
Proof.
  unfold parse_pubmed_article.
  destruct (find a (Descendant (u "PubDate"))) as [e|]; [|discriminate].
  intros [= <-]. exists e. split; [reflexivity|]. cbn [pub_date].
  destruct (findtext e (Child (u "Year"))) as [[|y ys]|];
    destruct (findtext e (Child (u "Month"))) as [[|m ms]|];
    destruct (findtext e (Child (u "Day"))) as [[|d ds]|];
    destruct (findtext e (Child (u "MedlineDate"))) as [[|c s]|];
    reflexivity.
Qed.

(** The scenario of C6: year ["2023"], month ["06"], no day, medline date
    ["2023 Jun"]. *)
Lemma publication_date_fallback_witness :
  exists r,
    parse_pubmed_article Samples.medline_article = Some r
    /\ pub_date r = u "2023 Jun".
Proof.
  eexists. split; [vm_compute; reflexivity|].
  destruct (publication_date_fallback Samples.medline_article _ eq_refl)
    as [e [He Hd]].
  vm_compute in He. injection He as <-. exact Hd.
Defined.

(** ** The persistence layer *)

Lemma str_eqb_eq (a b : str) : str_eqb a b = true <-> a = b.
Proof.
  revert b. induction a as [|x a IH]; intros [|y b]; simpl;
    try (split; [discriminate|congruence]); [tauto|].
  rewrite andb_true_iff, N.eqb_eq, IH. split; [intros [-> ->]|intros [= -> ->]]; auto.
Qed.

Lemma find_app_Some {A} (p : A -> bool) (l k : list A) (x : A) :
  List.find p l = Some x -> List.find p (l ++ k) = Some x.
Proof.
  induction l as [|y l IH]; simpl; [discriminate|].
  destruct (p y); [exact (fun H => H)|exact IH].
Qed.

Lemma find_has_id_None (p : str) (t : list Article) :
  List.find (has_id p) t = None -> ~ In (Some p) (List.map id t).
Proof.
  induction t as [|row t IH]; simpl; [tauto|].
  destruct (has_id p row) eqn:E; [discriminate|].
  intros H [Hrow|Hin]; [|exact (IH H Hin)].
  unfold has_id in E. rewrite Hrow in E.
  assert (str_eqb p p = true) by now apply str_eqb_eq.
  congruence.
Qed.

Lemma visible_flush (s : Session) : visible (flush s) = staged s.
Proof. unfold visible, flush, staged. simpl. now rewrite app_assoc. Qed.

Lemma stage_cases (q : bool) (a : ArticleData) (s : Session) (n : Counts) :
  stage_outcome a s n (stage q a (s, n)).
Proof.
  unfold stage. destruct (pmid a) as [[|c p]|] eqn:Hp;
    try (now apply staged_skip).
  destruct q; [now apply staged_error|].
  unfold query_first. rewrite visible_flush.
  destruct (List.find (has_id (c :: p)) (staged s)) eqn:Hf.
  - apply staged_skip; [reflexivity|].
    unfold staged. cbn. now rewrite List.app_nil_r.
  - apply (staged_insert a s n _ (c :: p)); try assumption; [reflexivity|].
    unfold staged, add. cbn. now rewrite <- !List.app_assoc.
Qed.

Lemma stage_durable (q : bool) (a : ArticleData) (st : Session * Counts) :
  durable (fst (stage q a st)) = durable (fst st).
Proof.
  destruct st as [s n]. destruct (stage_cases q a s n); simpl; auto.
Qed.

(** The rows held by the session only grow, by as many rows as the
    counter of stored records grows. *)
Lemma stage_grows (q : bool) (a : ArticleData) (st : Session * Counts) :
  exists added,
    staged (fst (stage q a st)) = staged (fst st) ++ added
    /\ (stored_count (snd (stage q a st))
        = stored_count (snd st) + length added)%nat.
Proof.
  destruct st as [s n]. destruct (stage_cases q a s n) as [s' _ Hs|s' _ Hs|s' p _ _ _ Hs];
    simpl.
  - exists []. rewrite Hs, List.app_nil_r. split; [reflexivity|simpl; lia].
  - exists []. rewrite Hs, List.app_nil_r. split; [reflexivity|simpl; lia].
  - exists [new_article p a]. rewrite Hs. split; [reflexivity|simpl; lia].
Qed.

Lemma stage_unique (q : bool) (a : ArticleData) (st : Session * Counts) :
  List.NoDup (List.map id (staged (fst st))) ->
  List.NoDup (List.map id (staged (fst (stage q a st)))).
Proof.
  destruct st as [s n].
  destruct (stage_cases q a s n) as [s' _ Hs|s' _ Hs|s' p _ Hf _ Hs]; simpl;
    rewrite ?Hs; auto.
  intros Hnd. rewrite List.map_app. simpl.
  apply List.NoDup_app; [exact Hnd|repeat constructor; simpl; tauto|].
  intros x Hx [<-|[]]. now apply (find_has_id_None p (staged s)).
Qed.

Lemma stage_all_durable (f : nat -> bool) (data : list ArticleData) :
  forall i st, durable (fst (stage_all f i data st)) = durable (fst st).
Proof.
  induction data as [|a rest IH]; intros i st; simpl; [reflexivity|].
  now rewrite IH, stage_durable.
Qed.

Lemma stage_all_grows (f : nat -> bool) (data : list ArticleData) :
  forall i st, exists added,
    staged (fst (stage_all f i data st)) = staged (fst st) ++ added
    /\ (stored_count (snd (stage_all f i data st))
        = stored_count (snd st) + length added)%nat.
Proof.
  induction data as [|a rest IH]; intros i st; simpl.
  - exists []. rewrite List.app_nil_r. split; [reflexivity|simpl; lia].
  - destruct (IH (S i) (stage (f i) a st)) as [added2 [H2 C2]].
    destruct (stage_grows (f i) a st) as [added1 [H1 C1]].
    exists (added1 ++ added2). rewrite H2, H1, C2, C1, List.app_assoc.
    split; [reflexivity|]. rewrite List.length_app. lia.
Qed.

Lemma stage_all_unique (f : nat -> bool) (data : list ArticleData) :
  forall i st,
    List.NoDup (List.map id (staged (fst st))) ->
    List.NoDup (List.map id (staged (fst (stage_all f i data st)))).
Proof.
  induction data as [|a rest IH]; intros i st H; simpl; [exact H|].
  now apply IH, stage_unique.
Qed.

(** The table after a run: every row of the session when the commit
    succeeds, the table before the run when it fails. *)
Lemma table_after_eq (f : Faults) (data : list ArticleData) (t : list Article) :
  table_after f data t =
  if commit_ok f
  then staged (fst (stage_all (query_raises f) 0 data (open_session t, zero_counts)))
  else t.
Proof.
  unfold table_after, store_articles.
  pose proof (stage_all_durable (query_raises f) data 0 (open_session t, zero_counts)) as Hd.
  destruct (stage_all (query_raises f) 0 data (open_session t, zero_counts))
    as [s n]. simpl in *.
  unfold commit. destruct (commit_ok f); simpl; [|exact Hd].
  apply visible_flush.
Qed.

Lemma staged_open (t : list Article) : staged (open_session t) = t.
Proof. unfold staged, open_session. simpl. apply List.app_nil_r. Qed.

(** A run only appends rows. *)
Lemma table_after_grows (f : Faults) (data : list ArticleData) (t : list Article) :
  exists added, table_after f data t = t ++ added.
Proof.
  rewrite table_after_eq. destruct (commit_ok f).
  - destruct (stage_all_grows (query_raises f) data 0 (open_session t, zero_counts))
      as [added [H _]].
    exists added. rewrite H. simpl. now rewrite staged_open.
  - exists []. now rewrite List.app_nil_r.
Qed.

Lemma table_after_unique (f : Faults) (data : list ArticleData) (t : list Article) :
  List.NoDup (List.map id t) -> List.NoDup (List.map id (table_after f data t)).
Proof.
  intros H. rewrite table_after_eq. destruct (commit_ok f); [|exact H].
  apply stage_all_unique. simpl. now rewrite staged_open.
Qed.

(** C1: starting from a table with at most one row per identifier, after
    any sequence of [store_articles] runs (whatever the inputs and
    whichever database calls fail) the table still has at most one row per
    identifier, and the row stored under an identifier before the runs is
    the row stored under it afterwards, with all its fields: an existing
    identifier is skipped, never overwritten. *)
Theorem store_keeps_rows_unique
    (batches : list (Faults * list ArticleData)) (table : list Article) :
  List.NoDup (List.map id table) ->
  List.NoDup (List.map id (runs batches table))
  /\ forall (pmid : str) (row : Article),
       List.find (has_id pmid) table = Some row ->
       List.find (has_id pmid) (runs batches table) = Some row.
Proof.
  unfold runs. revert table.
  induction batches as [|[f data] rest IH]; intros table Hnd; simpl.
  - split; [exact Hnd|auto].
  - destruct (IH (table_after f data table) (table_after_unique f data table Hnd))
      as [H1 H2].
    split; [exact H1|]. intros p row Hrow. apply H2.
    destruct (table_after_grows f data table) as [added ->].
    now apply find_app_Some.
Qed.

(** The scenario of C1: the identifier ["1"] is stored with one title and
    ingested again with another; the stored title stays. *)
Lemma store_keeps_rows_unique_witness :
  List.NoDup (List.map id Samples.first_table)
  /\ List.NoDup (List.map id (runs Samples.second_batch Samples.first_table))
  /\ option_map a_title
       (List.find (has_id (u "1")) (runs Samples.second_batch Samples.first_table))
     = Some (Some (u "Old title")).
Proof.
  assert (Hnd : List.NoDup (List.map id Samples.first_table)).
  { vm_compute. repeat constructor. simpl. tauto. }
  destruct (store_keeps_rows_unique Samples.second_batch Samples.first_table Hnd)
    as [H1 H2].
  split; [exact Hnd|]. split; [exact H1|].
  rewrite (H2 (u "1") (new_article (u "1") (Samples.enriched "1" "Old title")));
    vm_compute; reflexivity.
Defined.

Lemma find_app_None {A} (p : A -> bool) (l k : list A) :
  List.find p l = None -> List.find p (l ++ k) = List.find p k.
Proof.
  induction l as [|y l IH]; simpl; [reflexivity|].
  destruct (p y); [discriminate|exact IH].
Qed.

Lemma find_app_found {A} (p : A -> bool) (l k : list A) :
  List.find p l <> None -> List.find p (l ++ k) <> None.
Proof.
  destruct (List.find p l) as [x|] eqn:E; [|congruence].
  intros _. now rewrite (find_app_Some p l k x E).
Qed.

Lemma staged_query_first (p : str) (s : Session) :
  staged (fst (query_first p s)) = staged s
  /\ snd (query_first p s) = List.find (has_id p) (staged s).
Proof.
  unfold query_first. rewrite visible_flush. split; [|reflexivity].
  unfold staged. simpl. now rewrite List.app_nil_r.
Qed.

Lemma staged_add (row : Article) (s : Session) :
  staged (add row s) = staged s ++ [row].
Proof. unfold staged, add. simpl. now rewrite <- !List.app_assoc. Qed.

Lemma has_id_new_article (p : str) (a : ArticleData) :
  has_id p (new_article p a) = true.
Proof. unfold has_id. simpl. now apply str_eqb_eq. Qed.

(** A record whose database call does not raise is in the session
    afterwards. *)
Lemma stage_found (a : ArticleData) (s : Session) (n : Counts) (p : str) :
  pmid a = Some p -> truthy p = true ->
  List.find (has_id p) (staged (fst (stage false a (s, n)))) <> None.
Proof.
  intros Hp Ht. destruct p as [|c p]; [discriminate|].
  unfold stage. rewrite Hp.
  destruct (staged_query_first (c :: p) s) as [Hs Hr].
  destruct (query_first (c :: p) s) as [s' [row|]]; simpl in *.
  - rewrite Hs. congruence.
  - rewrite staged_add, Hs, find_app_None by congruence.
    simpl. now rewrite has_id_new_article.
Qed.

Lemma stage_all_found_kept (f : nat -> bool) (data : list ArticleData)
    (i : nat) (st : Session * Counts) (p : str) :
  List.find (has_id p) (staged (fst st)) <> None ->
  List.find (has_id p) (staged (fst (stage_all f i data st))) <> None.
Proof.
  intros H. destruct (stage_all_grows f data i st) as [added [-> _]].
  now apply find_app_found.
Qed.

(** After a staging loop in which no database call raised, every record
    with an identifier has a row in the session. *)
Lemma stage_all_covers (f : nat -> bool) (data : list ArticleData) :
  (forall i, f i = false) ->
  forall i st a p,
    In a data -> pmid a = Some p -> truthy p = true ->
    List.find (has_id p) (staged (fst (stage_all f i data st))) <> None.
Proof.
  intros Hf. induction data as [|b rest IH]; intros i st a p [].
  - subst b. intros Hp Ht. simpl. apply stage_all_found_kept.
    rewrite Hf. destruct st as [s n]. now apply stage_found.
  - intros Hp Ht. simpl. now apply (IH (S i) _ a p).
Qed.

(** A record that has no identifier, or whose identifier has a row, is
    skipped, and the session holds the same rows. *)
Lemma stage_skips (a : ArticleData) (s : Session) (n : Counts) :
  (forall p, pmid a = Some p -> truthy p = true ->
             List.find (has_id p) (staged s) <> None) ->
  staged (fst (stage false a (s, n))) = staged s
  /\ snd (stage false a (s, n))
     = {| stored_count := stored_count n;
          skipped_count := S (skipped_count n);
          error_count := error_count n |}.
Proof.
  intros H. unfold stage.
  destruct (pmid a) as [[|c p]|]; try (split; reflexivity).
  specialize (H (c :: p) eq_refl eq_refl).
  destruct (staged_query_first (c :: p) s) as [Hs Hr].
  destruct (query_first (c :: p) s) as [s' [row|]]; simpl in *.
  - now split.
  - congruence.
Qed.

Lemma stage_all_skips (f : nat -> bool) (data : list ArticleData) :
  (forall i, f i = false) ->
  forall i s n,
    (forall a p, In a data -> pmid a = Some p -> truthy p = true ->
                 List.find (has_id p) (staged s) <> None) ->
    staged (fst (stage_all f i data (s, n))) = staged s
    /\ snd (stage_all f i data (s, n))
       = {| stored_count := stored_count n;
            skipped_count := length data + skipped_count n;
            error_count := error_count n |}.
Proof.
  intros Hf. induction data as [|a rest IH]; intros i s n H;
    cbn [stage_all length].
  - split; [reflexivity|]. now destruct n.
  - rewrite Hf.
    destruct (stage_skips a s n (fun p => H a p (or_introl eq_refl))) as [Hs Hn].
    destruct (stage false a (s, n)) as [s1 n1]. simpl in Hs, Hn.
    destruct (IH (S i) s1 n1) as [Hs' Hn'].
    + intros b p Hb. rewrite Hs. apply H. now right.
    + rewrite Hs', Hn', Hs, Hn. simpl. split; [reflexivity|].
      f_equal. lia.
Qed.

(** C7: after a prior run over [data] in which no database call raised
    and the commit succeeded, a second run of [store_articles] over the
    same [data] whose queries do not raise counts every record as skipped
    (none stored, none in error) and leaves the table as it was, whether
    or not its commit succeeds: no row is added. *)
Theorem store_twice_skips_all
    (f1 f2 : Faults) (data : list ArticleData) (table : list Article) :
  (forall i, query_raises f1 i = false) -> commit_ok f1 = true ->
  (forall i, query_raises f2 i = false) ->
  snd (store_articles f2 data (table_after f1 data table))
  = {| stored_count := 0; skipped_count := length data; error_count := 0 |}
  /\ table_after f2 data (table_after f1 data table) = table_after f1 data table
  /\ length (table_after f2 data (table_after f1 data table))
     = length (table_after f1 data table).
Proof.
  intros Hq1 Hc1 Hq2.
  set (t1 := table_after f1 data table).
  assert (Hcov : forall a p, In a data -> pmid a = Some p -> truthy p = true ->
                   List.find (has_id p) (staged (open_session t1)) <> None).
  { intros a p Ha Hp Ht. rewrite staged_open. unfold t1.
    rewrite table_after_eq, Hc1. now apply (stage_all_covers _ _ Hq1 _ _ a). }
  destruct (stage_all_skips (query_raises f2) data Hq2 0 (open_session t1)
              zero_counts Hcov) as [Hs Hn].
  assert (Ht : table_after f2 data t1 = t1).
  { rewrite table_after_eq. destruct (commit_ok f2); [|reflexivity].
    now rewrite Hs, staged_open. }
  split; [|split; [exact Ht|now rewrite Ht]].
  unfold store_articles.
  destruct (stage_all (query_raises f2) 0 data (open_session t1, zero_counts))
    as [s2 n2]. simpl in *. rewrite Hn. f_equal. lia.
Qed.

Lemma store_twice_skips_all_witness :
  let data := [Samples.enriched "1" "Old title"; Samples.enriched "2" "Other"] in
  snd (store_articles no_faults data (table_after no_faults data []))
  = {| stored_count := 0; skipped_count := 2; error_count := 0 |}
  /\ table_after no_faults data (table_after no_faults data [])
     = table_after no_faults data []
  /\ length (table_after no_faults data (table_after no_faults data []))
     = length (table_after no_faults data []).
Proof.
  intros data.
  exact (store_twice_skips_all no_faults no_faults data []
           (fun _ => eq_refl) eq_refl (fun _ => eq_refl)).
Defined.

Example first_run_stores_two :
  let data := [Samples.enriched "1" "Old title"; Samples.enriched "2" "Other"] in
  snd (store_articles no_faults data [])
  = {| stored_count := 2; skipped_count := 0; error_count := 0 |}
  /\ length (table_after no_faults data []) = 2%nat.
Proof. vm_compute. split; reflexivity. Qed.

(** The loop body only queries and adds: it never commits. *)
Lemma stage_log (q : bool) (a : ArticleData) (st : Session * Counts) :
  exists ops,
    log (fst (stage q a st)) = log (fst st) ++ ops
    /\ forallb staging_op ops = true.
Proof.
  destruct st as [s n]. unfold stage.
  destruct (pmid a) as [[|c p]|];
    try (exists []; simpl; now rewrite List.app_nil_r).
  destruct q; [now exists [OpQuery (c :: p)]|].
  unfold query_first.
  destruct (List.find (has_id (c :: p)) (visible (flush s))); simpl.
  - now exists [OpQuery (c :: p)].
  - exists [OpQuery (c :: p); OpAdd (c :: p)].
    now rewrite <- List.app_assoc.
Qed.

Lemma stage_all_log (f : nat -> bool) (data : list ArticleData) :
  forall i st, exists ops,
    log (fst (stage_all f i data st)) = log (fst st) ++ ops
    /\ forallb staging_op ops = true.
Proof.
  induction data as [|a rest IH]; intros i st; cbn [stage_all].
  - exists []. now rewrite List.app_nil_r.
  - destruct (IH (S i) (stage (f i) a st)) as [ops2 [H2 F2]].
    destruct (stage_log (f i) a st) as [ops1 [H1 F1]].
    exists (ops1 ++ ops2). rewrite H2, H1, List.app_assoc.
    split; [reflexivity|]. now rewrite List.forallb_app, F1, F2.
Qed.

Lemma no_commit_while_staging (ops : list Op) :
  forallb staging_op ops = true -> List.filter is_commit ops = [].
Proof.
  induction ops as [|op ops IH]; [reflexivity|]. simpl.
  intros H. apply andb_prop in H as [Hop Hops].
  destruct op; try discriminate; simpl; auto.
Qed.

(** C8: the calls of [store_articles] are the queries and additions of
    the staging loop, then one commit (followed by a rollback when it
    raises), then the close: there is exactly one commit and it comes
    after all staging.  When the commit succeeds the table gains exactly
    the rows counted as stored; when it fails the table is the table from
    before the run, so no row of the batch is persisted. *)
Theorem store_commit_atomic
    (f : Faults) (data : list ArticleData) (table : list Article) :
  exists staging added,
    log (fst (store_articles f data table))
    = staging ++ (if commit_ok f then [OpCommit] else [OpCommit; OpRollback])
              ++ [OpClose]
    /\ forallb staging_op staging = true
    /\ length (List.filter is_commit (log (fst (store_articles f data table))))
       = 1%nat
    /\ length added = stored_count (snd (store_articles f data table))
    /\ durable (fst (store_articles f data table))
       = if commit_ok f then table ++ added else table.
Proof.
  pose proof (table_after_eq f data table) as Ht.
  unfold table_after in Ht. unfold store_articles in *.
  destruct (stage_all_log (query_raises f) data 0 (open_session table, zero_counts))
    as [ops [Hl Hf]].
  destruct (stage_all_grows (query_raises f) data 0 (open_session table, zero_counts))
    as [added [Hs Hc]].
  destruct (stage_all (query_raises f) 0 data (open_session table, zero_counts))
    as [s n]. simpl in Hl, Hs, Hc, Ht. rewrite staged_open in Hs.
  exists ops, added.
  assert (Hlog : log (close (commit (commit_ok f) s))
                 = ops ++ (if commit_ok f then [OpCommit]
                           else [OpCommit; OpRollback]) ++ [OpClose]).
  { unfold close, commit. destruct (commit_ok f); simpl; rewrite Hl;
      now rewrite <- List.app_assoc. }
  cbn [fst snd]. rewrite Hlog.
  split; [reflexivity|]. split; [exact Hf|]. split; [|split].
  - rewrite List.filter_app, (no_commit_while_staging ops Hf).
    now destruct (commit_ok f).
  - lia.
  - unfold close. cbn [durable]. rewrite Ht.
    destruct (commit_ok f); [exact Hs|reflexivity].
Qed.

(** A failing commit on a batch of two new records: two rows were staged
    and none is durable. *)
Example failed_commit_stores_nothing :
  let f := {| query_raises := fun _ => false; commit_ok := false |} in
  let data := [Samples.enriched "1" "Old title"; Samples.enriched "2" "Other"] in
  snd (store_articles f data [])
  = {| stored_count := 2; skipped_count := 0; error_count := 0 |}
  /\ table_after f data [] = []
  /\ log (fst (store_articles f data []))
     = [OpQuery (u "1"); OpAdd (u "1"); OpQuery (u "2"); OpAdd (u "2");
        OpCommit; OpRollback; OpClose].
Proof. vm_compute. repeat split. Qed.

(** ** The read API *)

Lemma to_dict_sentinels (article : Article) :
  (id article = None -> App.d_id (App.to_dict article) = u "N/A")
  /\ (a_title article = None -> App.d_title (App.to_dict article) = u "Untitled")
  /\ (a_abstract article = None ->
      App.d_abstract (App.to_dict article) = u "No abstract.")
  /\ (a_pub_date article = None ->
      App.d_pub_date (App.to_dict article) = u "N/A")
  /\ (a_summary article = None ->
      App.d_summary (App.to_dict article) = u "No summary.")
  /\ (forall l, a_keywords article = Some (JsonList l) ->
      App.d_keywords (App.to_dict article) = join (u ", ") l).
Proof.
  unfold App.to_dict. simpl.
  repeat split; try (intros ->; reflexivity). intros l ->. reflexivity.
Qed.

(** C9: for a stored row in which only the summary is [NULL], read with
    an empty cache, the read API returns the row's own identifier, title,
    abstract and date and its keyword list joined with [", "]; for the
    missing summary it returns ["No summary."], which is not the sentinel
    ["No summary available."] that the claim names and that the summary
    section of the page compares with. *)
Theorem null_summary_sentinel_differs :
  fst (App.get_articles_from_db None (Some (Some [Samples.summary_null_row])))
  = [ {| App.d_id := u "7"; App.d_title := u "T";
         App.d_abstract := u "A"; App.d_pub_date := u "2024";
         App.d_keywords := u "sepsis"; App.d_summary := u "No summary." |} ]
  /\ List.map App.d_keywords
       (fst (App.get_articles_from_db None (Some (Some [Samples.keyword_row]))))
     = [u "deep learning, sepsis"]
  /\ List.map App.d_summary
       (fst (App.get_articles_from_db None
               (Some (Some [Samples.summary_null_row]))))
     <> [App.RENDERER_SUMMARY_SENTINEL].
Proof. vm_compute. repeat split. discriminate. Qed.

(** ** The enrichment stage *)

Lemma generate_summary_empty (lib : Libraries) (num_sentences : nat) :
  generate_summary lib [] num_sentences = [].
Proof. reflexivity. Qed.

(** The record the keyword loop makes of a cleaned record, when the
    extraction returns. *)
Lemma keyword_loop_In (lib : Libraries) (data out : list ArticleData)
    (r : ArticleData) :
  keyword_loop lib data = Some out -> In r out ->
  exists a value,
    In a data
    /\ extract_keywords lib (title a ++ u ". " ++ abstract a) KEYWORD_COUNT
       = Some value
    /\ r = set_keywords value a.
Proof.
  revert out. induction data as [|a rest IH]; intros out; simpl.
  - now intros [= <-].
  - destruct (extract_keywords lib _ KEYWORD_COUNT) as [value|] eqn:E;
      [|discriminate].
    destruct (keyword_loop lib rest) as [out'|]; [|discriminate].
    intros [= <-] [<-|Hin].
    + exists a, value. split; [now left|]. now split.
    + destruct (IH out' eq_refl Hin) as [b [v [Hb H]]].
      exists b, v. split; [now right|exact H].
Qed.




(** * Further properties of the code *)

(** ** The text normalizer, continued *)

Lemma strip_ends (s : str) :
  starts_with_space (strip s) = false
  /\ starts_with_space (rev (strip s)) = false.
Proof.
  split.
  - unfold strip. destruct (rstrip_split (lstrip s)) as [w Hw].
    apply (starts_with_space_prefix _ w). rewrite <- Hw. apply lstrip_head.
  - unfold strip, rstrip. rewrite rev_involutive. apply lstrip_head.
Qed.

Lemma collapsed_no_newline (s : str) : collapsed s = true -> ~ In LF s.
Proof.
  induction s as [|c r IH]; [tauto|]. cbn [collapsed]. intros H [Hc|Hin].
  - subst c. discriminate.
  - apply andb_prop in H as [_ H]. exact (IH H Hin).
Qed.

Lemma clean_text_shape (text : option str) :
  collapsed (clean_text text) = true
  /\ starts_with_space (clean_text text) = false
  /\ starts_with_space (rev (clean_text text)) = false
  /\ ~ In LF (clean_text text).
Proof.
  assert (Hc : collapsed (clean_text text) = true).
  { destruct text as [x|]; [|reflexivity].
    rewrite clean_text_unfold. apply collapsed_strip, sub_spaces_collapsed. }
  split; [exact Hc|].
  destruct text as [x|]; [|repeat split; simpl; tauto].
  rewrite clean_text_unfold in *.
  destruct (strip_ends (sub_all spaces_at [SPACE]
             (sub_all tag_at [] (str_replace MOJIBAKE_APOSTROPHE (u "'") x))))
    as [H1 H2].
  repeat split; try assumption. now apply collapsed_no_newline.
Qed.

(** X1: whatever the input, the cleaned text has no leading and no
    trailing whitespace, each whitespace character in it is a single blank
    between two other characters, and it holds no newline. *)
Theorem clean_text_normalized (text : option str) :
  collapsed (clean_text text) = true
  /\ starts_with_space (clean_text text) = false
  /\ starts_with_space (rev (clean_text text)) = false
  /\ ~ In LF (clean_text text).
Proof.
  assert (Hc : collapsed (clean_text text) = true).
  { destruct text as [x|]; [|reflexivity].
    rewrite clean_text_unfold. apply collapsed_strip, sub_spaces_collapsed. }
  split; [exact Hc|].
  destruct text as [x|]; [|repeat split; simpl; tauto].
  rewrite clean_text_unfold in *.
  destruct (strip_ends (sub_all spaces_at [SPACE]
             (sub_all tag_at [] (str_replace MOJIBAKE_APOSTROPHE (u "'") x))))
    as [H1 H2].
  repeat split; try assumption. now apply collapsed_no_newline.
Qed.

Lemma str_replace_apostrophe_length (x : str) :
  (length (str_replace MOJIBAKE_APOSTROPHE (u "'") x) <= length x)%nat.
Proof.
  unfold str_replace, MOJIBAKE_APOSTROPHE. apply sub_all_length.
  intros s k H. apply literal_at_bounds in H as [H1 H2].
  rewrite H1 in *. simpl in *. lia.
Qed.

Lemma sub_tags_length (x : str) :
  (length (sub_all tag_at [] x) <= length x)%nat.
Proof.
  apply sub_all_length. intros s k H. apply tag_at_bounds in H. simpl. lia.
Qed.

(** X2: cleaning never makes a text longer. *)
Theorem clean_text_never_longer (x : str) :
  (length (clean_text (Some x)) <= length x)%nat.
Proof.
  etransitivity; [apply clean_text_length|].
  etransitivity; [apply sub_tags_length|].
  apply str_replace_apostrophe_length.
Qed.

(** X4: a text that is already clean (whitespace only as single blanks
    between other characters, no tag-shaped substring, no mis-encoded
    apostrophe sequence) is returned as it is. *)
Theorem clean_text_fixed_point (y : str) :
  collapsed y = true ->
  starts_with_space y = false ->
  starts_with_space (rev y) = false ->
  matches_somewhere tag_at y = false ->
  matches_somewhere (literal_at MOJIBAKE_APOSTROPHE) y = false ->
  clean_text (Some y) = y.
Proof.
  intros Hc Hl Hr Ht Hm. rewrite clean_text_unfold.
  unfold str_replace, MOJIBAKE_APOSTROPHE in *.
  rewrite (sub_all_no_match _ _ _ Hm), (sub_all_no_match _ _ _ Ht).
  rewrite (collapsed_fixed _ Hc).
  unfold strip, rstrip. rewrite (lstrip_fixed _ Hl), (lstrip_fixed _ Hr).
  apply rev_involutive.
Qed.

Lemma clean_text_fixed_point_witness :
  clean_text (Some (u "A & B bold text")) = u "A & B bold text".
Proof.
  apply clean_text_fixed_point; vm_compute; reflexivity.
Defined.

(** A substitution only keeps characters of the text and of the
    replacement. *)
Lemma In_drop (c : N) (k : nat) (s : str) : In c (drop k s) -> In c s.
Proof.
  intros H. rewrite <- (take_drop k s). apply List.in_or_app. now right.
Qed.

Lemma In_sub_all (matcher : str -> option nat) (repl : str) (c : N) (s : str) :
  In c (sub_all matcher repl s) -> In c s \/ In c repl.
Proof.
  remember (length s) as n eqn:Hn.
  assert (Hle : (length s <= n)%nat) by lia. clear Hn.
  revert s Hle. induction n as [|n IH]; intros [|x r] Hle; simpl in Hle;
    try (simpl; tauto); try lia.
  rewrite sub_all_cons.
  destruct (matcher (x :: r)) as [[|k]|].
  - intros [->|H]; [left; now left|].
    destruct (IH r ltac:(lia) H); [left; now right|now right].
  - intros H. apply List.in_app_or in H as [H|H]; [now right|].
    destruct (IH (drop k r)) as [H1|H1]; try assumption.
    + rewrite length_drop. lia.
    + left. right. now apply (In_drop c k r).
    + now right.
  - intros [->|H]; [left; now left|].
    destruct (IH r ltac:(lia) H); [left; now right|now right].
Qed.

Lemma existsb_GT_In (s : str) : existsb (N.eqb GT) s = true <-> In GT s.
Proof.
  rewrite List.existsb_exists. split.
  - intros [x [Hx E]]. apply N.eqb_eq in E. now subst x.
  - intros H. exists GT. split; [exact H|reflexivity].
Qed.

(** On a line, the tag pattern fails at a ['<'] only when no ['>']
    follows. *)
Lemma close_at_None_line (r : str) :
  ~ In LF r -> close_at r = None -> ~ In GT r.
Proof.
  induction r as [|c r IH]; [tauto|]. simpl. intros Hlf.
  destruct (N.eqb_spec c GT) as [->|Hgt]; [discriminate|].
  destruct (N.eqb_spec c LF) as [->|Hnl]; [tauto|].
  destruct (close_at r); [discriminate|].
  intros _ [Hc|Hin]; [congruence|]. apply IH; tauto.
Qed.

Lemma close_at_Some_In (r : str) (n : nat) : close_at r = Some n -> In GT r.
Proof.
  revert n. induction r as [|c r IH]; intros n; simpl; [discriminate|].
  destruct (N.eqb_spec c GT) as [->|Hgt]; [now left|].
  destruct (c =? LF); [discriminate|].
  destruct (close_at r) as [m|]; [|discriminate].
  intros _. right. now apply (IH m).
Qed.

(** A tag-shaped substring has a ['>'] after a ['<']. *)
Lemma tag_opens_then_closes (s : str) :
  opens_then_closes s = false -> matches_somewhere tag_at s = false.
Proof.
  induction s as [|c r IH]; [reflexivity|].
  cbn [opens_then_closes matches_somewhere tag_at]. intros H.
  apply orb_false_iff in H as [H1 H2]. rewrite (IH H2).
  destruct (c =? LT); [|reflexivity]. simpl in H1.
  destruct (close_at r) as [n|] eqn:E; [|reflexivity].
  apply close_at_Some_In, existsb_GT_In in E. congruence.
Qed.

Lemma opens_then_closes_app (a b : str) :
  opens_then_closes (a ++ b) = false ->
  opens_then_closes a = false /\ opens_then_closes b = false.
Proof.
  induction a as [|c a IH]; [now split|].
  cbn [app opens_then_closes]. intros H.
  apply orb_false_iff in H as [H1 H2]. destruct (IH H2) as [Ha Hb].
  split; [|exact Hb]. rewrite Ha, orb_false_r.
  destruct (c =? LT); [|reflexivity]. simpl in *.
  rewrite List.existsb_app in H1. now apply orb_false_iff in H1 as [-> _].
Qed.

Lemma opens_then_closes_drop (k : nat) (s : str) :
  opens_then_closes s = false -> opens_then_closes (drop k s) = false.
Proof.
  intros H. rewrite <- (take_drop k s) in H.
  now apply opens_then_closes_app in H.
Qed.

Lemma opens_then_closes_strip (s : str) :
  opens_then_closes s = false -> opens_then_closes (strip s) = false.
Proof.
  intros H. unfold strip.
  destruct (lstrip_split s) as [v Hv]. rewrite Hv in H.
  apply opens_then_closes_app in H as [_ H].
  destruct (rstrip_split (lstrip s)) as [w Hw]. rewrite Hw in H.
  now apply opens_then_closes_app in H.
Qed.

(** Removing the tags of a text without a newline leaves no ['>'] behind
    a ['<']. *)
Lemma sub_tags_line (s : str) :
  ~ In LF s -> opens_then_closes (sub_all tag_at [] s) = false.
Proof.
  remember (length s) as n eqn:Hn.
  assert (Hle : (length s <= n)%nat) by lia. clear Hn.
  revert s Hle. induction n as [|n IH]; intros [|c r] Hle Hlf; simpl in Hle;
    try reflexivity; try lia.
  assert (Hr : ~ In LF r) by (intros H; apply Hlf; now right).
  rewrite sub_all_cons.
  destruct (tag_at (c :: r)) as [[|k]|] eqn:E.
  - simpl in E. destruct (c =? LT); [|discriminate].
    destruct (close_at r); discriminate.
  - apply IH; [rewrite length_drop; lia|].
    intros H. apply Hr. now apply (In_drop LF k r).
  - cbn [opens_then_closes]. rewrite (IH r) by (assumption || lia).
    rewrite orb_false_r. simpl in E.
    destruct (c =? LT); [|reflexivity]. simpl.
    destruct (close_at r) as [m|] eqn:Ec; [discriminate|].
    destruct (existsb (N.eqb GT) (sub_all tag_at [] r)) eqn:Eg; [|reflexivity].
    apply existsb_GT_In, In_sub_all in Eg as [Hin|[]].
    now destruct (close_at_None_line r Hr Ec).
Qed.

Lemma sub_spaces_opens_then_closes (s : str) :
  opens_then_closes s = false ->
  opens_then_closes (sub_all spaces_at [SPACE] s) = false.
Proof.
  remember (length s) as n eqn:Hn.
  assert (Hle : (length s <= n)%nat) by lia. clear Hn.
  revert s Hle. induction n as [|n IH]; intros [|c r] Hle H; simpl in Hle;
    try reflexivity; try lia.
  pose proof H as H0. cbn [opens_then_closes] in H.
  apply orb_false_iff in H as [H1 H2].
  rewrite sub_all_cons, spaces_at_cons.
  destruct (Py_UNICODE_ISSPACE c) eqn:Ec.
  - simpl. apply IH; [rewrite length_drop; lia|].
    now apply opens_then_closes_drop.
  - cbn [opens_then_closes]. rewrite (IH r) by (assumption || lia).
    rewrite orb_false_r. destruct (c =? LT); [|reflexivity]. simpl in *.
    destruct (existsb (N.eqb GT) (sub_all spaces_at [SPACE] r)) eqn:Eg;
      [|reflexivity].
    apply existsb_GT_In, In_sub_all in Eg as [Hin|[Hin|[]]].
    + apply existsb_GT_In in Hin. congruence.
    + discriminate.
Qed.

(** X3: a text without a newline leaves the normalizer without any
    tag-shaped substring: in the result no ['>'] follows a ['<']. *)
Theorem clean_text_line_tag_free (x : str) :
  ~ In LF x ->
  opens_then_closes (clean_text (Some x)) = false
  /\ matches_somewhere tag_at (clean_text (Some x)) = false.
Proof.
  intros Hlf.
  assert (H : opens_then_closes (clean_text (Some x)) = false).
  { rewrite clean_text_unfold.
    apply opens_then_closes_strip, sub_spaces_opens_then_closes, sub_tags_line.
    unfold str_replace, MOJIBAKE_APOSTROPHE.
    intros Hin. apply In_sub_all in Hin as [Hin|Hin]; [tauto|].
    vm_compute in Hin. destruct Hin as [Hin|[]]. discriminate. }
  split; [exact H|now apply tag_opens_then_closes].
Qed.

Lemma clean_text_line_tag_free_witness :
  opens_then_closes (clean_text (Some (u "a <b>bold</b> < c <i x=1>d"))) = false
  /\ matches_somewhere tag_at
       (clean_text (Some (u "a <b>bold</b> < c <i x=1>d"))) = false.
Proof.
  apply clean_text_line_tag_free. vm_compute.
  intros H. repeat (destruct H as [H|H]; [discriminate|]). exact H.
Defined.

(** ** The detail fetcher, continued *)

Lemma parse_all_map (articles : list Element) (rs : list ArticleData) :
  parse_all articles [] = Some rs ->
  List.map Some rs = List.map parse_pubmed_article articles.
Proof.
  revert rs. induction articles as [|a rest IH]; intros rs; simpl.
  - now intros [= <-].
  - destruct (parse_pubmed_article a) as [r|]; [|discriminate].
    rewrite parse_all_app.
    destruct (parse_all rest []) as [rs'|]; [|discriminate].
    intros [= <-]. simpl. now rewrite (IH rs' eq_refl).
Qed.

(** X5: the detail fetcher is all or nothing: it returns either the empty
    list or exactly one record for each [PubmedArticle] element of the
    answer, in document order, each being what the loop body builds for
    that element. *)
Theorem fetch_all_or_nothing (pubmed_ids : list str) (response : option Element) :
  fetch_article_details_with_abstract pubmed_ids response = []
  \/ exists root,
       response = Some root
       /\ List.map Some (fetch_article_details_with_abstract pubmed_ids response)
          = List.map parse_pubmed_article
              (findall root (Descendant (u "PubmedArticle"))).
Proof.
  unfold fetch_article_details_with_abstract.
  destruct pubmed_ids as [|i ids]; [now left|].
  destruct response as [root|]; [|now left].
  destruct (parse_all (findall root (Descendant (u "PubmedArticle"))) [])
    as [rs|] eqn:E; [|now left].
  right. exists root. split; [reflexivity|]. now apply parse_all_map.
Qed.

(** X6: the publication date of a parsed record is never the empty
    string. *)
Theorem parsed_date_not_empty (a : Element) (r : ArticleData) :
  parse_pubmed_article a = Some r -> pub_date r <> [].
Proof.
  unfold parse_pubmed_article.
  destruct (find a (Descendant (u "PubDate"))) as [e|]; [|discriminate].
  intros [= <-]. cbn [pub_date]. unfold publication_date_of.
  destruct (findtext e (Child (u "Year"))) as [[|y ys]|];
    destruct (findtext e (Child (u "Month"))) as [[|m ms]|];
    destruct (findtext e (Child (u "Day"))) as [[|d ds]|];
    destruct (findtext e (Child (u "MedlineDate"))) as [[|c s]|];
    discriminate.
Qed.

Lemma parsed_date_not_empty_witness :
  u "2023 Jun" <> [].
Proof.
  assert (H : parse_pubmed_article Samples.medline_article
              = Some {| pmid := Some (u "3"); title := u "Fallback";
                        abstract := []; pub_date := u "2023 Jun";
                        keywords := None; summary := None |})
    by (vm_compute; reflexivity).
  exact (parsed_date_not_empty _ _ H).
Defined.

(** X7: the title and the abstract of a parsed record have no leading and
    no trailing whitespace, and the record carries no keyword and no
    summary entry yet. *)
Theorem parsed_text_trimmed (a : Element) (r : ArticleData) :
  parse_pubmed_article a = Some r ->
  starts_with_space (title r) = false
  /\ starts_with_space (rev (title r)) = false
  /\ starts_with_space (abstract r) = false
  /\ starts_with_space (rev (abstract r)) = false
  /\ keywords r = None /\ summary r = None.
Proof.
  unfold parse_pubmed_article.
  destruct (find a (Descendant (u "PubDate"))) as [e|]; [|discriminate].
  intros [= <-]. cbn [title abstract keywords summary].
  destruct (strip_ends (fold_left abstract_step
              (findall a (DescendantChild (u "Abstract") (u "AbstractText"))) []))
    as [H1 H2].
  destruct (find a (Descendant (u "ArticleTitle"))) as [t|].
  - destruct (strip_ends (concat (itertext t))) as [H3 H4]. now repeat split.
  - now repeat split.
Qed.

Lemma parsed_text_trimmed_witness :
  starts_with_space (u "Deep learning") = false
  /\ starts_with_space (rev (u "Deep learning")) = false
  /\ starts_with_space (u "We study models.") = false
  /\ starts_with_space (rev (u "We study models.")) = false
  /\ @None (list str) = None /\ @None str = None.
Proof.
  exact (parsed_text_trimmed Samples.complete_article _ parse_complete_article).
Defined.

(** ** The search call *)

(** Replacing one character by another is a character-wise map. *)
Lemma str_replace_char (c d : N) (s : str) :
  str_replace [c] [d] s = List.map (fun x => if x =? c then d else x) s.
Proof.
  unfold str_replace. induction s as [|x r IH]; [reflexivity|].
  rewrite sub_all_cons. unfold literal_at at 1. simpl.
  rewrite (N.eqb_sym c x). destruct (x =? c).
  - simpl. rewrite drop_0. now rewrite IH.
  - now rewrite IH.
Qed.

(** X8: the encoded search term has the length of the term, holds no
    blank, and differs from the term only where the term has a blank. *)
Theorem encode_term_no_blank (term : str) :
  length (encode_term term) = length term
  /\ ~ In SPACE (encode_term term)
  /\ forall i c, nth_error term i = Some c -> c <> SPACE ->
                 nth_error (encode_term term) i = Some c.
Proof.
  unfold encode_term. change (u "+") with [43]. rewrite str_replace_char.
  split; [apply List.length_map|]. split.
  - intros H. apply List.in_map_iff in H as [x [Hx _]].
    destruct (N.eqb_spec x SPACE); [discriminate|congruence].
  - intros i c Hi Hc. rewrite List.nth_error_map, Hi. simpl.
    destruct (N.eqb_spec c SPACE); [contradiction|reflexivity].
Qed.

(** ** Enrichment, continued *)

Lemma length_slice_to {A} (n : Z) (l : list A) :
  (0 <= n)%Z -> (length (slice_to n l) <= Z.to_nat n)%nat.
Proof.
  intros Hn. unfold slice_to.
  destruct (Z.leb_spec 0 n); [|lia]. rewrite length_take. lia.
Qed.

Lemma extract_keywords_cap (lib : Libraries) (text : str) (num_keywords : Z)
    (value : list str) :
  (0 <= num_keywords)%Z ->
  extract_keywords lib text num_keywords = Some value ->
  (length value <= Z.to_nat num_keywords)%nat.
Proof.
  intros Hn. unfold extract_keywords.
  destruct (truthy text); cbn [negb]; [|intros [= <-]; simpl; lia].
  destruct (nltk_data lib TokenizersPunkt); cbn [negb];
    [|intros [= <-]; simpl; lia].
  destruct (make_rake lib) as [r|]; [|discriminate].
  destruct (r text) as [|[ranked_phrases|]]; try discriminate.
  - intros [= <-]. simpl. lia.
  - intros [= <-]. now apply length_slice_to.
Qed.

(** The keyword loop, when it returns, has handled every record on its
    own. *)
Lemma keyword_loop_map (lib : Libraries) (data out : list ArticleData) :
  keyword_loop lib data = Some out ->
  out = List.map
          (fun a =>
             match extract_keywords lib (title a ++ u ". " ++ abstract a)
                                    KEYWORD_COUNT with
             | Some value => set_keywords value a
             | None => a
             end) data.
Proof.
  revert out. induction data as [|a rest IH]; intros out;
    cbn [keyword_loop List.map].
  - now intros [= <-].
  - destruct (extract_keywords lib _ KEYWORD_COUNT) as [value|] eqn:E;
      [|discriminate].
    destruct (keyword_loop lib rest) as [out'|]; [|discriminate].
    intros [= <-]. apply (f_equal2 cons); [reflexivity|now apply IH].
Qed.

Lemma enrich_fields (lib : Libraries) (data out : list ArticleData) :
  enrich lib data = Some out ->
  exists g : ArticleData -> ArticleData,
    out = List.map g data
    /\ forall a, pmid (g a) = pmid a /\ pub_date (g a) = pub_date a
                 /\ title (g a) = clean_text (Some (title a))
                 /\ abstract (g a) = clean_text (Some (abstract a)).
Proof.
  unfold enrich, summary_stage, keyword_stage.
  destruct (nltk_data lib TokenizersPunkt).
  - destruct (keyword_loop lib (List.map clean_record data)) as [out'|] eqn:E;
      [|discriminate].
    apply keyword_loop_map in E. subst out'. intros [= <-].
    destruct (SumyLexRankSummarizer lib); cbn [andb];
      rewrite ?List.map_map; eexists; (split; [reflexivity|]);
      intros a; cbn beta;
      destruct (extract_keywords lib _ KEYWORD_COUNT); repeat split.
  - rewrite andb_false_r. intros [= <-].
    eexists; (split; [reflexivity|]); intros a; repeat split.
Qed.

(** X9: when [extract_keywords] returns and [num_keywords] is not
    negative, it returns at most [num_keywords] phrases, whatever the
    libraries do; and every record that leaves the enrichment of the main
    block has at most fifteen keywords. *)
Theorem keyword_cap (lib : Libraries) :
  (forall text num_keywords value,
      (0 <= num_keywords)%Z ->
      extract_keywords lib text num_keywords = Some value ->
      (length value <= Z.to_nat num_keywords)%nat)
  /\ forall data out r kws,
       enrich lib data = Some out ->
       In r out -> keywords r = Some kws ->
       (length kws <= 15)%nat.
Proof.
  split; [apply extract_keywords_cap|].
  intros data out r kws He Hin Hk.
  unfold enrich, summary_stage, keyword_stage in He.
  assert (Hs : forall d r, In r (List.map (set_summary lib) d) ->
                 exists r0, In r0 d /\ keywords r = keywords r0).
  { intros d r1 H. apply List.in_map_iff in H as [r0 [<- H]]. now exists r0. }
  assert (Hkw : forall d o r, keyword_loop lib d = Some o -> In r o ->
                  forall kws, keywords r = Some kws -> (length kws <= 15)%nat).
  { intros d o r1 E H k1.
    destruct (keyword_loop_In lib d o r1 E H) as [a [value [_ [Hv ->]]]].
    cbn [set_keywords keywords]. intros [= <-].
    exact (extract_keywords_cap lib _ KEYWORD_COUNT value
             ltac:(unfold KEYWORD_COUNT; lia) Hv). }
  assert (Hcl : forall r, In r (List.map clean_record data) -> keywords r = None).
  { intros r1 H. now apply List.in_map_iff in H as [r0 [<- _]]. }
  destruct (nltk_data lib TokenizersPunkt).
  - destruct (keyword_loop lib (List.map clean_record data)) as [o|] eqn:E;
      [|discriminate].
    injection He as <-.
    destruct (SumyLexRankSummarizer lib); cbn [andb] in Hin.
    + apply Hs in Hin as [r0 [Hin E0]]. rewrite E0 in Hk.
      now apply (Hkw _ _ _ E Hin).
    + now apply (Hkw _ _ _ E Hin).
  - rewrite andb_false_r in He. injection He as <-.
    apply Hcl in Hin. congruence.
Qed.

Lemma keyword_cap_witness :
  (length [u "Sepsis. "] <= Z.to_nat 15)%nat.
Proof.
  destruct (keyword_cap Samples.echo_libraries) as [H _].
  apply (H (u "Sepsis. ") 15%Z); [lia|]. vm_compute. reflexivity.
Defined.

(** X10: when the enrichment of the main block returns, it has kept the
    number and the order of the records, their identifiers and their
    dates, and has replaced every title and abstract by its cleaned
    form. *)
Theorem enrich_keeps_records (lib : Libraries) (data out : list ArticleData) :
  enrich lib data = Some out ->
  length out = length data
  /\ List.map pmid out = List.map pmid data
  /\ List.map pub_date out = List.map pub_date data
  /\ List.map title out
     = List.map (fun a => clean_text (Some (title a))) data
  /\ List.map abstract out
     = List.map (fun a => clean_text (Some (abstract a))) data.
Proof.
  intros He. destruct (enrich_fields lib data out He) as [g [-> Hg]].
  rewrite List.length_map, !List.map_map.
  repeat split; apply List.map_ext; intros a; apply Hg.
Qed.

Lemma enrich_keeps_records_witness :
  exists out,
    enrich Samples.echo_libraries [Samples.title_only] = Some out
    /\ length out = 1%nat
    /\ List.map pmid out = [Some (u "2")].
Proof.
  eexists. split; [vm_compute; reflexivity|].
  destruct (enrich_keeps_records Samples.echo_libraries [Samples.title_only] _
              eq_refl) as [H1 [H2 _]].
  split; [exact H1|exact H2].
Defined.

(** The keyword stage raises as soon as it has a record to handle and no
    [Rake] object can be made: the text it passes is never empty. *)
Lemma keyword_loop_raises (lib : Libraries) (a : ArticleData)
    (rest : list ArticleData) :
  nltk_data lib TokenizersPunkt = true -> make_rake lib = None ->
  keyword_loop lib (a :: rest) = None.
Proof.
  intros Hp Hr. cbn [keyword_loop]. unfold extract_keywords.
  rewrite Hp, Hr. cbn [negb].
  now destruct (title a ++ u ". " ++ abstract a) eqn:E;
    [destruct (title a); discriminate|].
Qed.

(** With the tokenizer resource present, when no [Rake] object can be
    made, the enrichment of a batch that is not empty returns no
    records. *)
Lemma enrich_raises_without_rake (lib : Libraries) (data : list ArticleData) :
  nltk_data lib TokenizersPunkt = true ->
  make_rake lib = None ->
  data <> [] ->
  enrich lib data = None.
Proof.
  intros Hp Hr Hne. destruct data as [|a rest]; [contradiction|].
  unfold enrich, keyword_stage. rewrite Hp. cbn [List.map].
  now rewrite (keyword_loop_raises lib _ _ Hp Hr).
Qed.

(** ** The persistence layer, continued *)

Import Notions.

Lemma stage_counts (q : bool) (a : ArticleData) (st : Session * Counts) :
  (stored_count (snd (stage q a st)) + skipped_count (snd (stage q a st))
   + error_count (snd (stage q a st))
   = S (stored_count (snd st) + skipped_count (snd st) + error_count (snd st)))%nat.
Proof.
  destruct st as [s n]. destruct (stage_cases q a s n); simpl; lia.
Qed.

Lemma stage_all_counts (f : nat -> bool) (data : list ArticleData) :
  forall i st,
    (stored_count (snd (stage_all f i data st))
     + skipped_count (snd (stage_all f i data st))
     + error_count (snd (stage_all f i data st))
     = length data + (stored_count (snd st) + skipped_count (snd st)
                      + error_count (snd st)))%nat.
Proof.
  induction data as [|a rest IH]; intros i st; cbn [stage_all length];
    [lia|].
  rewrite IH, stage_counts. lia.
Qed.

(** X11: every record of the input is counted exactly once: the three
    counters of a run add up to the number of records, whichever calls
    fail. *)
Theorem counters_partition_input
    (f : Faults) (data : list ArticleData) (table : list Article) :
  (stored_count (snd (store_articles f data table))
   + skipped_count (snd (store_articles f data table))
   + error_count (snd (store_articles f data table))
   = length data)%nat.
Proof.
  unfold store_articles.
  pose proof (stage_all_counts (query_raises f) data 0
                (open_session table, zero_counts)) as H.
  destruct (stage_all (query_raises f) 0 data (open_session table, zero_counts))
    as [s n]. simpl in *. lia.
Qed.

(** The loop body adds nothing, or the row built from its record, whose
    identifier is then not empty. *)
Lemma stage_adds (q : bool) (a : ArticleData) (st : Session * Counts) :
  staged (fst (stage q a st)) = staged (fst st)
  \/ exists p, pmid a = Some p /\ truthy p = true
               /\ staged (fst (stage q a st))
                  = staged (fst st) ++ [new_article p a].
Proof.
  destruct st as [s n]. unfold stage.
  destruct (pmid a) as [[|c p]|]; try (now left).
  destruct q; [now left|].
  destruct (staged_query_first (c :: p) s) as [Hs Hr].
  destruct (query_first (c :: p) s) as [s' [row|]]; simpl in *.
  - now left.
  - right. exists (c :: p). rewrite staged_add, Hs. now repeat split.
Qed.

Lemma stage_all_adds (f : nat -> bool) (data : list ArticleData) :
  forall i st row,
    In row (staged (fst (stage_all f i data st))) ->
    In row (staged (fst st))
    \/ exists a p, In a data /\ pmid a = Some p /\ truthy p = true
                   /\ row = new_article p a.
Proof.
  induction data as [|a rest IH]; intros i st row; cbn [stage_all];
    [now left|].
  intros H. apply IH in H as [H|[b [p [Hb H]]]].
  - destruct (stage_adds (f i) a st) as [E|[p [Hp [Ht E]]]]; rewrite E in H.
    + now left.
    + apply List.in_app_or in H as [H|[<-|[]]]; [now left|].
      right. exists a, p. repeat split; try assumption. now left.
  - right. exists b, p. split; [now right|exact H].
Qed.

Lemma table_after_rows
    (f : Faults) (data : list ArticleData) (table : list Article) (row : Article) :
  In row (table_after f data table) ->
  In row table
  \/ exists a p, In a data /\ pmid a = Some p /\ truthy p = true
                 /\ row = new_article p a.
Proof.
  rewrite table_after_eq. destruct (commit_ok f); [|now left].
  intros H. apply stage_all_adds in H. simpl in H.
  now rewrite staged_open in H.
Qed.

(** X12: a run only adds rows built from records of its input whose
    identifier is not empty: every row of the table after the run is a row
    of the table before it or [new_article p a] for a record [a] of the
    input with the identifier [p]. *)
Theorem rows_come_from_input
    (f : Faults) (data : list ArticleData) (table : list Article) (row : Article) :
  In row (table_after f data table) ->
  In row table
  \/ exists a p, In a data /\ pmid a = Some p /\ truthy p = true
                 /\ row = new_article p a.
Proof.
  rewrite table_after_eq. destruct (commit_ok f); [|now left].
  intros H. apply stage_all_adds in H. simpl in H.
  now rewrite staged_open in H.
Qed.

Lemma rows_come_from_input_witness :
  In (new_article (u "1") (Samples.enriched "1" "Old title")) []
  \/ exists a p, In a [Samples.enriched "1" "Old title"] /\ pmid a = Some p
                 /\ truthy p = true
                 /\ new_article (u "1") (Samples.enriched "1" "Old title")
                    = new_article p a.
Proof.
  apply (rows_come_from_input no_faults). vm_compute. now left.
Defined.

Lemma has_id_new_article_other (p q : str) (a : ArticleData) :
  has_id p (new_article q a) = str_eqb q p.
Proof. reflexivity. Qed.

Lemma str_eqb_refl (p : str) : str_eqb p p = true.
Proof. now apply str_eqb_eq. Qed.

Lemma find_has_id_eq (p q : str) (l : list Article) :
  List.find (has_id q) l <> None -> List.find (has_id p) l = None ->
  str_eqb q p = false.
Proof.
  intros Hq Hp. destruct (str_eqb q p) eqn:E; [|reflexivity].
  apply str_eqb_eq in E. subst q. contradiction.
Qed.

Lemma stage_lookup (a : ArticleData) (s : Session) (n : Counts) (p : str) :
  truthy p = true ->
  List.find (has_id p) (staged (fst (stage false a (s, n))))
  = match List.find (has_id p) (staged s) with
    | Some row => Some row
    | None => if pmid_is p a then Some (new_article p a) else None
    end.
Proof.
  intros Hp. unfold stage, pmid_is.
  destruct (pmid a) as [[|c q]|].
  - cbn [fst]. destruct p; [discriminate|].
    now destruct (List.find _ (staged s)).
  - destruct (staged_query_first (c :: q) s) as [Hs Hr].
    destruct (query_first (c :: q) s) as [s' [row|]]; cbn [fst snd] in *.
    + rewrite Hs.
      destruct (List.find (has_id p) (staged s)) eqn:Ep; [reflexivity|].
      rewrite (find_has_id_eq p (c :: q) (staged s)); congruence.
    + rewrite staged_add, Hs.
      destruct (List.find (has_id p) (staged s)) as [row|] eqn:Ep.
      * now rewrite (find_app_Some _ _ _ _ Ep).
      * rewrite (find_app_None _ _ _ Ep). cbn [List.find].
        rewrite has_id_new_article_other.
        destruct (str_eqb (c :: q) p) eqn:Eq; [|reflexivity].
        apply str_eqb_eq in Eq. now subst p.
  - cbn [fst]. now destruct (List.find _ (staged s)).
Qed.

(** Lookup after a staging loop without raising calls: the row the
    session already had, else the row of the first record that carries the
    identifier. *)
Lemma stage_all_lookup (f : nat -> bool) (data : list ArticleData) (p : str) :
  (forall i, f i = false) -> truthy p = true ->
  forall i s n,
    List.find (has_id p) (staged (fst (stage_all f i data (s, n))))
    = match List.find (has_id p) (staged s) with
      | Some row => Some row
      | None => option_map (new_article p) (List.find (pmid_is p) data)
      end.
Proof.
  intros Hf Hp. induction data as [|a rest IH]; intros i s n;
    cbn [stage_all].
  - simpl. now destruct (List.find (has_id p) (staged s)).
  - rewrite Hf. pose proof (stage_lookup a s n p Hp) as H1.
    destruct (stage false a (s, n)) as [s1 n1]. cbn [fst] in H1.
    rewrite IH, H1. cbn [List.find].
    destruct (List.find (has_id p) (staged s)); [reflexivity|].
    now destruct (pmid_is p a).
Qed.

(** X13: after a run without raising calls and with a successful commit,
    looking up an identifier gives the row the table already had for it,
    and otherwise the row built from the first record of the input that
    carries it (later records with the same identifier are ignored);
    identifiers that are neither in the table nor in the input are still
    not found. *)
Theorem lookup_after_run
    (f : Faults) (data : list ArticleData) (table : list Article) (p : str) :
  (forall i, query_raises f i = false) -> commit_ok f = true ->
  truthy p = true ->
  List.find (has_id p) (table_after f data table)
  = match List.find (has_id p) table with
    | Some row => Some row
    | None => option_map (new_article p) (List.find (pmid_is p) data)
    end.
Proof.
  intros Hq Hc Hp. rewrite table_after_eq, Hc.
  rewrite (stage_all_lookup _ data p Hq Hp). now rewrite staged_open.
Qed.

Lemma lookup_after_run_witness :
  let data := [Samples.enriched "1" "New title"; Samples.enriched "2" "First";
               Samples.enriched "2" "Second"] in
  List.find (has_id (u "2")) (table_after no_faults data Samples.first_table)
  = Some (new_article (u "2") (Samples.enriched "2" "First")).
Proof.
  intros data.
  rewrite (lookup_after_run no_faults data Samples.first_table (u "2")
             (fun _ => eq_refl) eq_refl eq_refl).
  vm_compute. reflexivity.
Defined.

Lemma find_has_id_app_one (q p : str) (l : list Article) (a : ArticleData) :
  List.find (has_id q) l = None -> str_eqb p q = false ->
  List.find (has_id q) (l ++ [new_article p a]) = None.
Proof.
  intros H E. rewrite (find_app_None _ _ _ H). simpl.
  now rewrite has_id_new_article_other, E.
Qed.

Lemma stage_fresh (a : ArticleData) (s : Session) (n : Counts) (p : str) :
  pmid a = Some p -> truthy p = true ->
  List.find (has_id p) (staged s) = None ->
  staged (fst (stage false a (s, n))) = staged s ++ [new_article p a].
Proof.
  intros Hq Hp Hnone. unfold stage. rewrite Hq.
  destruct p as [|c q]; [discriminate|].
  destruct (staged_query_first (c :: q) s) as [Hs Hr].
  destruct (query_first (c :: q) s) as [s' [row|]]; cbn [fst snd] in *;
    [congruence|].
  now rewrite staged_add, Hs.
Qed.

(** Fresh, distinct identifiers: every record becomes a row, in order. *)
Lemma stage_all_fresh (f : nat -> bool) (data : list ArticleData) :
  (forall i, f i = false) ->
  Forall (fun a => truthy_opt (pmid a) = true) data ->
  List.NoDup (List.map pmid data) ->
  forall i s n,
    (forall a p, In a data -> pmid a = Some p ->
                 List.find (has_id p) (staged s) = None) ->
    staged (fst (stage_all f i data (s, n)))
    = staged s ++ List.map (fun a => new_article (default [] (pmid a)) a) data.
Proof.
  intros Hf Ht. induction Ht as [|a rest Ha Ht IH]; intros Hnd i s n Hfresh;
    cbn [stage_all List.map].
  - now rewrite List.app_nil_r.
  - rewrite Hf. inversion Hnd as [|x l Hnotin Hnd']. subst x l.
    destruct (pmid a) as [p|] eqn:Hq; [|discriminate]. cbn [truthy_opt] in Ha.
    pose proof (stage_fresh a s n p Hq Ha
                  (Hfresh a p (or_introl eq_refl) Hq)) as E1.
    destruct (stage false a (s, n)) as [s1 n1]. cbn [fst] in E1.
    rewrite (IH Hnd' (S i) s1 n1).
    + rewrite E1, <- List.app_assoc. reflexivity.
    + intros b p' Hb Hp'. rewrite E1. apply find_has_id_app_one.
      * apply (Hfresh b p'); [now right|exact Hp'].
      * destruct (str_eqb p p') eqn:Eq; [|reflexivity].
        apply str_eqb_eq in Eq. subst p'. exfalso. apply Hnotin.
        rewrite <- Hp'. now apply List.in_map.
Qed.

(** Rows with an identifier are all loaded and converted. *)
Lemma convert_loaded (rows : list Article) (acc : list App.Display) :
  Forall (fun row => id row <> None) rows ->
  App.convert (List.map App.orm_load rows) acc
  = Some (acc ++ List.map App.to_dict rows).
Proof.
  intros H. revert acc. induction H as [|row rows Hrow _ IH]; intros acc.
  - simpl. now rewrite List.app_nil_r.
  - cbn [List.map App.convert]. unfold App.orm_load at 1.
    destruct (id row); [|contradiction].
    rewrite IH. now rewrite <- List.app_assoc.
Qed.

(** X14: storing records with distinct identifiers, none empty, into an
    empty table and reading the table back through the read API, with
    nothing cached yet, shows every record, in input order, with its own
    identifier, title, abstract and date, its keywords joined by [", "]
    (none when the record has no keyword entry) and its summary (["N/A"]
    when it has no summary entry): no display sentinel of the read API
    appears.  The result is then the cached one. *)
Theorem store_then_read
    (f : Faults) (data : list ArticleData) :
  (forall i, query_raises f i = false) -> commit_ok f = true ->
  Forall (fun a => truthy_opt (pmid a) = true) data ->
  List.NoDup (List.map pmid data) ->
  App.get_articles_from_db None (Some (Some (table_after f data [])))
  = (List.map shown data, Some (List.map shown data)).
Proof.
  intros Hq Hc Ht Hnd. rewrite table_after_eq, Hc.
  rewrite (stage_all_fresh _ data Hq Ht Hnd); [|reflexivity].
  cbn [fst staged open_session durable flushed pending app].
  unfold App.get_articles_from_db, App.read_table.
  rewrite convert_loaded.
  - cbn [app]. rewrite List.map_map.
    rewrite (List.map_ext _ shown); [reflexivity|]. intros a. reflexivity.
  - apply List.Forall_forall. intros row Hrow.
    apply List.in_map_iff in Hrow as [a [<- _]]. discriminate.
Qed.

Lemma store_then_read_witness :
  let data := [Samples.enriched "1" "Old title"; Samples.enriched "2" "Other"] in
  App.get_articles_from_db None (Some (Some (table_after no_faults data [])))
  = (List.map shown data, Some (List.map shown data)).
Proof.
  intros data. apply store_then_read; try reflexivity.
  - repeat constructor.
  - repeat constructor; simpl; intros H;
      repeat (destruct H as [H|H]; [discriminate|]); exact H.
Defined.


(** A row stored after the first read is not shown by the second. *)
Example second_read_is_stale :
  let before := table_after no_faults [Samples.enriched "1" "Old title"] [] in
  let after := table_after no_faults [Samples.enriched "2" "Other"] before in
  let cache := snd (App.get_articles_from_db None (Some (Some before))) in
  length after = 2%nat
  /\ List.map App.d_id (fst (App.get_articles_from_db cache (Some (Some after))))
     = [u "1"].
Proof. vm_compute. split; reflexivity. Qed.

(** ** The main block *)

Lemma api_key_is_set :
  str_eqb NCBI_API_KEY (u "YOUR_GENERATED_API_KEY_HERE") = false.
Proof. vm_compute. reflexivity. Qed.

Lemma table_after_nil (f : Faults) (table : list Article) :
  table_after f [] table = table.
Proof.
  rewrite table_after_eq. simpl. rewrite staged_open. now destruct (commit_ok f).
Qed.

Lemma enrich_nil (lib : Libraries) : enrich lib [] = Some [].
Proof.
  unfold enrich, summary_stage, keyword_stage. simpl.
  destruct (nltk_data lib TokenizersPunkt); simpl;
    now destruct (SumyLexRankSummarizer lib).
Qed.

(** A run that ends normally leaves the table [store_articles] leaves for
    the ingested records. *)
Lemma main_table (lib : Libraries) (esearch efetch : option Element)
    (f : Faults) (table : list Article) (o : Outcome) :
  main lib esearch efetch f table = Some o ->
  table_of o = table_after f (ingested lib esearch efetch) table.
Proof.
  unfold main, ingested. rewrite api_key_is_set.
  destruct (search_pubmed esearch) as [[article_ids webenv] query_key].
  cbn [fst].
  destruct article_ids as [|i ids].
  - intros [= <-]. simpl. now rewrite enrich_nil, table_after_nil.
  - destruct (joinable (i :: ids)) as [l|]; [|discriminate].
    destruct (enrich lib (fetch_article_details_with_abstract l efetch))
      as [[|c cs]|]; [| |discriminate];
      intros [= <-]; simpl; [now rewrite table_after_nil|reflexivity].
Qed.

Lemma fetch_failed (ids : list str) :
  fetch_article_details_with_abstract ids None = [].
Proof. now destruct ids. Qed.

(** X15: when the search call or the detail call fails, a run that ends
    normally leaves the table exactly as it was, whatever the faults of
    the database. *)
Theorem failed_call_keeps_table (lib : Libraries)
    (esearch efetch : option Element) (f : Faults) (table : list Article)
    (o : Outcome) :
  esearch = None \/ efetch = None ->
  main lib esearch efetch f table = Some o ->
  table_of o = table.
Proof.
  intros Hfail Hmain. rewrite (main_table _ _ _ _ _ _ Hmain).
  unfold ingested. destruct Hfail as [->| ->].
  - simpl. now rewrite enrich_nil, table_after_nil.
  - destruct (joinable _); [|apply table_after_nil].
    rewrite fetch_failed, enrich_nil. apply table_after_nil.
Qed.

Lemma failed_call_keeps_table_witness :
  table_of {| table_of := Samples.first_table; dumped := None |}
  = Samples.first_table.
Proof.
  apply (failed_call_keeps_table Samples.echo_libraries None None no_faults).
  - now left.
  - vm_compute. reflexivity.
Defined.

(** X16: a run of the main block keeps the rows of the table, in place and
    unchanged, and keeps the identifiers distinct. *)
Theorem main_keeps_rows (lib : Libraries)
    (esearch efetch : option Element) (f : Faults) (table : list Article)
    (o : Outcome) :
  List.NoDup (List.map id table) ->
  main lib esearch efetch f table = Some o ->
  List.NoDup (List.map id (table_of o))
  /\ exists added, table_of o = table ++ added.
Proof.
  intros Hnd Hmain. rewrite (main_table _ _ _ _ _ _ Hmain).
  split; [now apply table_after_unique|apply table_after_grows].
Qed.

(** Running the same batch again after a run without faults changes
    nothing. *)
Lemma table_after_again (f1 f2 : Faults) (data : list ArticleData)
    (table : list Article) :
  (forall i, query_raises f1 i = false) -> commit_ok f1 = true ->
  (forall i, query_raises f2 i = false) ->
  table_after f2 data (table_after f1 data table) = table_after f1 data table.
Proof.
  intros Hq1 Hc1 Hq2. set (t1 := table_after f1 data table).
  assert (Hcov : forall a p, In a data -> pmid a = Some p -> truthy p = true ->
                   List.find (has_id p) (staged (open_session t1)) <> None).
  { intros a p Ha Hp Ht. rewrite staged_open. unfold t1.
    rewrite table_after_eq, Hc1. now apply (stage_all_covers _ _ Hq1 _ _ a). }
  destruct (stage_all_skips (query_raises f2) data Hq2 0 (open_session t1)
              zero_counts Hcov) as [Hs _].
  rewrite table_after_eq. destruct (commit_ok f2); [|reflexivity].
  now rewrite Hs, staged_open.
Qed.

(** X17: ingestion is idempotent: when a run without database faults has
    ended normally, a second run that receives the same answers from the
    remote calls and whose queries do not raise ends normally too, writes
    the same records to the JSON file and leaves the table as the first
    run left it. *)
Theorem main_twice (lib : Libraries)
    (esearch efetch : option Element) (f1 f2 : Faults) (table : list Article)
    (o1 : Outcome) :
  (forall i, query_raises f1 i = false) -> commit_ok f1 = true ->
  (forall i, query_raises f2 i = false) ->
  main lib esearch efetch f1 table = Some o1 ->
  main lib esearch efetch f2 (table_of o1)
  = Some {| table_of := table_of o1; dumped := dumped o1 |}.
Proof.
  intros Hq1 Hc1 Hq2 Hmain.
  pose proof (main_table _ _ _ _ _ _ Hmain) as Ht1.
  pose proof (table_after_again f1 f2 (ingested lib esearch efetch) table
                Hq1 Hc1 Hq2) as Hagain.
  rewrite <- Ht1 in Hagain. revert Hmain Hagain.
  unfold main, ingested. rewrite api_key_is_set.
  destruct (search_pubmed esearch) as [[article_ids webenv] query_key].
  cbn [fst]. destruct article_ids as [|i ids].
  - now intros [= <-].
  - destruct (joinable (i :: ids)) as [l|]; [|discriminate].
    destruct (enrich lib (fetch_article_details_with_abstract l efetch))
      as [[|c cs]|]; [| |discriminate];
      intros [= <-] Hagain; simpl in *; [reflexivity|now rewrite Hagain].
Qed.

Example main_sample_run :
  main Samples.echo_libraries (Some Samples.search_result)
       (Some Samples.detail_result) no_faults []
  = Some {| table_of :=
              [ {| id := Some (u "2"); a_title := Some (u "Deep learning");
                   a_abstract := Some (u "We study models.");
                   a_pub_date := Some (u "2024-01-15");
                   a_keywords :=
                     Some (JsonList [u "Deep learning. We study models."]);
                   a_summary := Some (u "We study models.") |} ];
            dumped :=
              Some [ {| pmid := Some (u "2"); title := u "Deep learning";
                        abstract := u "We study models.";
                        pub_date := u "2024-01-15";
                        keywords := Some [u "Deep learning. We study models."];
                        summary := Some (u "We study models.") |} ] |}.
Proof. vm_compute. reflexivity. Qed.

Lemma main_keeps_rows_witness :
  exists o,
    main Samples.echo_libraries (Some Samples.search_result)
         (Some Samples.detail_result) no_faults Samples.first_table = Some o
    /\ List.NoDup (List.map id (table_of o))
    /\ exists added, table_of o = Samples.first_table ++ added.
Proof.
  eexists. split; [vm_compute; reflexivity|].
  apply (main_keeps_rows Samples.echo_libraries (Some Samples.search_result)
           (Some Samples.detail_result) no_faults Samples.first_table).
  - vm_compute. repeat constructor. simpl. tauto.
  - vm_compute. reflexivity.
Defined.

Lemma main_twice_witness :
  exists o1,
    main Samples.echo_libraries (Some Samples.search_result)
         (Some Samples.detail_result) no_faults [] = Some o1
    /\ main Samples.echo_libraries (Some Samples.search_result)
            (Some Samples.detail_result) no_faults (table_of o1)
       = Some {| table_of := table_of o1; dumped := dumped o1 |}.
Proof.
  eexists. split; [exact main_sample_run|].
  exact (main_twice Samples.echo_libraries (Some Samples.search_result)
           (Some Samples.detail_result) no_faults no_faults [] _
           (fun _ => eq_refl) eq_refl (fun _ => eq_refl) main_sample_run).
Defined.

Lemma joinable_None (ids : list (option str)) :
  In None ids -> joinable ids = None.
Proof.
  induction ids as [|[i|] rest IH]; simpl; [tauto| |reflexivity].
  intros [H|H]; [discriminate|]. now rewrite (IH H).
Qed.

(** X18: an [Id] element without text in the answer of the search ends
    the run with an exception that nothing catches: the identifier list
    holds [None], and the [join] in the detail fetcher stands before its
    [try].  No outcome is produced, whatever the other inputs. *)
Theorem blank_id_ends_run (lib : Libraries) (root : Element)
    (efetch : option Element) (f : Faults) (table : list Article) :
  In None (List.map text (findall root (DescendantChild (u "IdList") (u "Id")))) ->
  main lib (Some root) efetch f table = None.
Proof.
  intros H. unfold main. rewrite api_key_is_set. cbn [search_pubmed].
  destruct (List.map text (findall root (DescendantChild (u "IdList") (u "Id"))))
    as [|i ids] eqn:E; [contradiction|].
  now rewrite (joinable_None _ H).
Qed.

Lemma blank_id_ends_run_witness :
  main Samples.echo_libraries (Some Samples.search_result_blank_id)
       (Some Samples.detail_result) no_faults [] = None.
Proof.
  apply blank_id_ends_run. vm_compute. right. now left.
Defined.

Lemma enrich_degraded (lib : Libraries) (data out : list ArticleData)
    (r : ArticleData) :
  enrich lib data = Some out -> In r out ->
  (nltk_data lib TokenizersPunkt = false -> keywords r = None /\ summary r = None)
  /\ (SumyLexRankSummarizer lib = false -> summary r = None).
Proof.
  unfold enrich, summary_stage, keyword_stage. intros He Hin. split.
  - intros Hp. rewrite Hp, andb_false_r in He. injection He as <-.
    now apply List.in_map_iff in Hin as [a [<- _]].
  - intros Hs. rewrite Hs in He. cbn [andb] in He.
    destruct (nltk_data lib TokenizersPunkt).
    + destruct (keyword_loop lib (List.map clean_record data)) as [o|] eqn:E;
        [|discriminate].
      injection He as <-.
      destruct (keyword_loop_In lib _ _ _ E Hin) as [c [value [Hc [_ ->]]]].
      now apply List.in_map_iff in Hc as [a [<- _]].
    + injection He as <-. now apply List.in_map_iff in Hin as [a [<- _]].
Qed.

(** X19: degraded enrichment is stored as defaults.  Without the
    tokenizer resource every row that a run adds has the empty keyword
    list and the summary ["N/A"]; without the summarizer every row that a
    run adds has the summary ["N/A"]. *)
Theorem degraded_rows (lib : Libraries)
    (esearch efetch : option Element) (f : Faults) (table : list Article)
    (o : Outcome) (row : Article) :
  main lib esearch efetch f table = Some o ->
  In row (table_of o) ->
  In row table
  \/ ((nltk_data lib TokenizersPunkt = false ->
       a_keywords row = Some (JsonList []) /\ a_summary row = Some (u "N/A"))
      /\ (SumyLexRankSummarizer lib = false -> a_summary row = Some (u "N/A"))).
Proof.
  intros Hmain Hrow. rewrite (main_table _ _ _ _ _ _ Hmain) in Hrow.
  apply table_after_rows in Hrow as [Hrow|[a [p [Ha [Hp [Ht ->]]]]]];
    [now left|right].
  unfold ingested in Ha. destruct (joinable _) as [ids|]; [|contradiction].
  destruct (enrich lib _) as [out|] eqn:He; [|contradiction].
  cbn [default] in Ha.
  destruct (enrich_degraded lib _ out a He Ha) as [H1 H2].
  cbn [new_article a_keywords a_summary].
  split.
  - intros Hpunkt. destruct (H1 Hpunkt) as [-> ->]. now split.
  - intros Hs. now rewrite (H2 Hs).
Qed.

Lemma degraded_rows_witness :
  exists o row,
    main Samples.no_punkt (Some Samples.search_result)
         (Some Samples.detail_result) no_faults [] = Some o
    /\ table_of o = [row]
    /\ a_keywords row = Some (JsonList []) /\ a_summary row = Some (u "N/A").
Proof.
  eexists. eexists. split; [vm_compute; reflexivity|].
  split; [reflexivity|].
  match goal with |- a_keywords ?r = _ /\ _ =>
    destruct (degraded_rows Samples.no_punkt (Some Samples.search_result)
                (Some Samples.detail_result) no_faults [] _ r eq_refl
                (or_introl eq_refl)) as [[]|[H _]]
  end.
  exact (H eq_refl).
Defined.

(** X20: what the pipeline stores is clean: every row that a run adds has
    an identifier that is not empty, and a title and an abstract that are
    outputs of the normalizer: no newline, no leading or trailing
    whitespace, whitespace only as single blanks. *)
Theorem stored_text_is_clean (lib : Libraries)
    (esearch efetch : option Element) (f : Faults) (table : list Article)
    (o : Outcome) (row : Article) :
  main lib esearch efetch f table = Some o ->
  In row (table_of o) ->
  In row table
  \/ exists p ti ab,
       id row = Some p /\ truthy p = true
       /\ a_title row = Some ti /\ a_abstract row = Some ab
       /\ collapsed ti = true /\ starts_with_space ti = false
       /\ starts_with_space (rev ti) = false /\ ~ In LF ti
       /\ collapsed ab = true /\ starts_with_space ab = false
       /\ starts_with_space (rev ab) = false /\ ~ In LF ab.
Proof.
  intros Hmain Hrow. rewrite (main_table _ _ _ _ _ _ Hmain) in Hrow.
  apply table_after_rows in Hrow as [Hrow|[a [p [Ha [Hp [Ht ->]]]]]];
    [now left|right].
  unfold ingested in Ha. destruct (joinable _) as [ids|]; [|contradiction].
  destruct (enrich lib _) as [out|] eqn:He; [|contradiction].
  cbn [default] in Ha.
  destruct (enrich_fields lib _ out He) as [g [E Hg]].
  rewrite E in Ha. apply List.in_map_iff in Ha as [b [<- _]].
  destruct (Hg b) as [_ [_ [Hti Hab]]].
  exists p, (title (g b)), (abstract (g b)).
  cbn [new_article id a_title a_abstract]. rewrite Hti, Hab.
  destruct (clean_text_shape (Some (title b))) as [T1 [T2 [T3 T4]]].
  destruct (clean_text_shape (Some (abstract b))) as [A1 [A2 [A3 A4]]].
  repeat split; assumption.
Qed.

Lemma stored_text_is_clean_witness :
  exists o row,
    main Samples.echo_libraries (Some Samples.search_result)
         (Some Samples.detail_result) no_faults [] = Some o
    /\ table_of o = [row]
    /\ (In row []
        \/ exists p ti ab,
             id row = Some p /\ truthy p = true
             /\ a_title row = Some ti /\ a_abstract row = Some ab
             /\ collapsed ti = true /\ starts_with_space ti = false
             /\ starts_with_space (rev ti) = false /\ ~ In LF ti
             /\ collapsed ab = true /\ starts_with_space ab = false
             /\ starts_with_space (rev ab) = false /\ ~ In LF ab).
Proof.
  eexists. eexists. split; [exact main_sample_run|].
  split; [reflexivity|].
  apply (stored_text_is_clean Samples.echo_libraries (Some Samples.search_result)
           (Some Samples.detail_result) no_faults [] _ _ main_sample_run).
  now left.
Defined.

(** ** The page *)

Lemma filter_filter_same {A} (p : A -> bool) (l : list A) :
  List.filter p (List.filter p l) = List.filter p l.
Proof.
  induction l as [|x l IH]; [reflexivity|]. simpl.
  destruct (p x) eqn:E; [|exact IH]. simpl. now rewrite E, IH.
Qed.

(** X21: the search filter only selects: every article it shows is one of
    the articles read from the table, it shows no more articles than were
    read, filtering the result again with the same query changes nothing,
    and the empty query shows everything. *)
Theorem search_filter_selects (lower : str -> str) (search_query : str)
    (all_articles_data : list App.Display) :
  (forall article,
      In article (App.filtered_articles lower search_query all_articles_data) ->
      In article all_articles_data)
  /\ (length (App.filtered_articles lower search_query all_articles_data)
      <= length all_articles_data)%nat
  /\ App.filtered_articles lower search_query
       (App.filtered_articles lower search_query all_articles_data)
     = App.filtered_articles lower search_query all_articles_data
  /\ App.filtered_articles lower [] all_articles_data = all_articles_data.
Proof.
  unfold App.filtered_articles. destruct (truthy search_query); simpl.
  - repeat split.
    + intros article H. now apply List.filter_In in H as [H _].
    + apply List.filter_length_le.
    + apply filter_filter_same.
  - repeat split; auto.
Qed.

Lemma strip_prefix_self (sub rest : str) :
  strip_prefix sub (sub ++ rest) = Some rest.
Proof.
  induction sub as [|c sub IH]; [reflexivity|]. simpl.
  now rewrite N.eqb_refl.
Qed.

Lemma contains_app (sub pre post : str) :
  contains sub (pre ++ sub ++ post) = true.
Proof.
  induction pre as [|c pre IH]; simpl.
  - pose proof (strip_prefix_self sub post) as H.
    destruct (sub ++ post); simpl; now rewrite H.
  - destruct (strip_prefix sub (c :: pre ++ sub ++ post)); [reflexivity|].
    exact IH.
Qed.

(** X22: an article whose lower-cased title holds the lower-cased query is
    shown. *)
Theorem title_hit_is_shown (lower : str -> str) (search_query : str)
    (all_articles_data : list App.Display) (article : App.Display)
    (pre post : str) :
  truthy search_query = true ->
  In article all_articles_data ->
  lower (App.d_title article) = pre ++ lower search_query ++ post ->
  In article (App.filtered_articles lower search_query all_articles_data).
Proof.
  intros Hq Hin Ht. unfold App.filtered_articles. rewrite Hq.
  apply List.filter_In. split; [exact Hin|].
  unfold App.matches_query. now rewrite Ht, contains_app.
Qed.

Lemma title_hit_is_shown_witness :
  In (Samples.shown_article "Deep Learning for Sepsis" "sepsis")
     (App.filtered_articles Samples.ascii_lower (u "LEARN")
        [Samples.shown_article "Other" "x";
         Samples.shown_article "Deep Learning for Sepsis" "sepsis"]).
Proof.
  apply (title_hit_is_shown Samples.ascii_lower (u "LEARN") _ _
           (u "deep ") (u "ing for sepsis")).
  - reflexivity.
  - right. now left.
  - vm_compute. reflexivity.
Defined.

Lemma length_remove_dups_le (l : list str) :
  (length (remove_dups l) <= length l)%nat.
Proof.
  induction l as [|x l IH]; simpl; [lia|].
  destruct (decide_rel elem_of x l); simpl; lia.
Qed.

(** X23: the number shown as publication years never exceeds the number
    of articles, and an article whose date is shown as ["N/A"] does not
    count. *)
Theorem publication_years_bound (all_articles_data : list App.Display) :
  (App.publication_years all_articles_data <= length all_articles_data)%nat
  /\ forall article,
       App.d_pub_date article = u "N/A" ->
       App.publication_years (article :: all_articles_data)
       = App.publication_years all_articles_data.
Proof.
  unfold App.publication_years. split.
  - etransitivity; [apply length_remove_dups_le|].
    rewrite List.length_map. apply List.filter_length_le.
  - intros article H. cbn [List.filter]. rewrite H. reflexivity.
Qed.

(** *** Keyword badges *)

Lemma contains_cons (sub : str) (c : N) (r : str) :
  contains sub (c :: r)
  = match strip_prefix sub (c :: r) with
    | Some _ => true
    | None => contains sub r
    end.
Proof. reflexivity. Qed.

Lemma split_from_cons (sep cur : str) (c : N) (r : str) :
  split_from sep 0 cur (c :: r)
  = match strip_prefix sep (c :: r) with
    | Some _ => cur :: split_from sep (length sep - 1) [] r
    | None => split_from sep 0 (cur ++ [c]) r
    end.
Proof. reflexivity. Qed.

(** A piece without the separator is not split. *)
Lemma split_piece (p cur : str) :
  contains [44; 32] p = false -> split_from [44; 32] 0 cur p = [cur ++ p].
Proof.
  revert cur. induction p as [|c r IH]; intros cur H.
  - simpl. now rewrite List.app_nil_r.
  - rewrite contains_cons in H. rewrite split_from_cons.
    destruct (strip_prefix [44; 32] (c :: r)); [discriminate|].
    rewrite (IH _ H). now rewrite <- List.app_assoc.
Qed.

(** The separator behind a piece that does not hold it ends the piece. *)
Lemma split_piece_sep (p cur rest : str) :
  contains [44; 32] p = false ->
  split_from [44; 32] 0 cur (p ++ [44; 32] ++ rest)
  = (cur ++ p) :: split_from [44; 32] 0 [] rest.
Proof.
  revert cur. induction p as [|c r IH]; intros cur H.
  - simpl. now rewrite List.app_nil_r.
  - rewrite contains_cons in H.
    change ((c :: r) ++ [44; 32] ++ rest) with (c :: (r ++ [44; 32] ++ rest)).
    rewrite split_from_cons.
    assert (Hn : strip_prefix [44; 32] (c :: (r ++ [44; 32] ++ rest)) = None).
    { destruct (strip_prefix [44; 32] (c :: r)) eqn:E; [discriminate|].
      cbn [strip_prefix] in *. destruct (44 =? c); [|reflexivity].
      destruct r as [|d r']; cbn [strip_prefix app] in *; [reflexivity|].
      destruct (32 =? d); [discriminate|reflexivity]. }
    rewrite Hn.
    destruct (strip_prefix [44; 32] (c :: r)); [discriminate|].
    rewrite (IH _ H). now rewrite <- List.app_assoc.
Qed.

(** Splitting what [join] built gives the pieces back. *)
Lemma split_join (l : list str) :
  l <> [] ->
  Forall (fun k => contains [44; 32] k = false) l ->
  split [44; 32] (join [44; 32] l) = l.
Proof.
  intros Hne Hall. unfold split.
  induction Hall as [|p rest Hp Hrest IH]; [contradiction|].
  destruct rest as [|q rest].
  - simpl. now rewrite split_piece.
  - change (join [44; 32] (p :: q :: rest))
      with (p ++ [44; 32] ++ join [44; 32] (q :: rest)).
    rewrite split_piece_sep by assumption. simpl app.
    now rewrite IH.
Qed.

Lemma map_strip_trimmed (l : list str) :
  Forall (fun k => strip k = k) l -> List.map strip l = l.
Proof. induction 1 as [|k l Hk _ IH]; simpl; congruence. Qed.

Lemma filter_truthy_all (l : list str) :
  Forall (fun k => truthy k = true) l -> List.filter truthy l = l.
Proof. induction 1 as [|k l Hk _ IH]; simpl; [reflexivity|]. now rewrite Hk, IH. Qed.

Lemma join_truthy (sep : str) (l : list str) :
  l <> [] -> Forall (fun k => truthy k = true) l -> truthy (join sep l) = true.
Proof.
  intros Hne Hall. destruct Hall as [|[|c k] rest Hk Hrest];
    [contradiction|discriminate|].
  now destruct rest.
Qed.

(** X24: the badges of the page are the stored keywords.  For a row whose
    keyword column holds a non-empty list of keywords, each of them not
    empty, without leading or trailing whitespace and without [", "]
    inside, the page splits the display string of the read API back into
    exactly that list (unless the display string is the page's own
    ["No keywords available."] text). *)
Theorem badges_are_keywords (row : Article) (l : list str) :
  a_keywords row = Some (JsonList l) ->
  l <> [] ->
  Forall (fun k => truthy k = true) l ->
  Forall (fun k => strip k = k) l ->
  Forall (fun k => contains (u ", ") k = false) l ->
  str_eqb (join (u ", ") l) (u "No keywords available.") = false ->
  App.keyword_list (App.d_keywords (App.to_dict row)) = Some l.
Proof.
  intros Hrow Hne Ht Hs Hc Hsent.
  destruct (to_dict_sentinels row) as [_ [_ [_ [_ [_ Hk]]]]].
  rewrite (Hk l Hrow). unfold App.keyword_list. rewrite Hsent, (join_truthy _ l Hne Ht).
  cbn [andb negb]. change (u ", ") with [44; 32] in *.
  now rewrite (split_join l Hne Hc), (map_strip_trimmed l Hs),
    (filter_truthy_all l Ht).
Qed.

Lemma badges_are_keywords_witness :
  App.keyword_list (App.d_keywords (App.to_dict Samples.keyword_row))
  = Some [u "deep learning"; u "sepsis"].
Proof.
  apply badges_are_keywords.
  - reflexivity.
  - discriminate.
  - repeat constructor.
  - repeat constructor.
  - repeat constructor.
  - vm_compute. reflexivity.
Defined.

(** ** The detail fetcher: complete answers *)

(** X25: when identifiers were requested and every [PubmedArticle]
    element of the answer has a [PubDate] element, the detail fetcher
    returns exactly one record for each of them, however many of their
    other parts (identifier, title, abstract, year, month, day, medline
    date) are missing. *)
Theorem dated_records_all_returned
    (pubmed_ids : list str) (root : Element) :
  pubmed_ids <> [] ->
  Forall (fun a => find a (Descendant (u "PubDate")) <> None)
         (findall root (Descendant (u "PubmedArticle"))) ->
  length (fetch_article_details_with_abstract pubmed_ids (Some root))
  = length (findall root (Descendant (u "PubmedArticle"))).
Proof.
  intros Hne Hall. unfold fetch_article_details_with_abstract.
  destruct pubmed_ids as [|i ids]; [contradiction|].
  destruct (parse_all_dated _ Hall) as [rs [-> Hlen]]. exact Hlen.
Qed.

Lemma dated_records_all_returned_witness :
  length (fetch_article_details_with_abstract [u "1"; u "2"]
            (Some (Samples.article_set
                     [Samples.untitled_article; Samples.complete_article])))
  = length (findall (Samples.article_set
                       [Samples.untitled_article; Samples.complete_article])
                    (Descendant (u "PubmedArticle"))).
Proof.
  apply dated_records_all_returned; [discriminate|].
  vm_compute. repeat constructor; discriminate.
Defined.

(** ** The main block: a run that ends in the keyword stage *)

(** X26: with the tokenizer resource present, when no [Rake] object can
    be made (the constructor on lines 136 and 139 raises, as [Rake()] does
    without the stopword resource), a run whose detail call returned at
    least one record ends in the keyword stage with an exception that
    nothing catches: it produces no outcome, so nothing is stored and
    nothing is written, whatever the table and the database faults. *)
Theorem missing_rake_ends_run (lib : Libraries)
    (esearch efetch : option Element) (f : Faults) (table : list Article)
    (ids : list str) :
  nltk_data lib TokenizersPunkt = true ->
  make_rake lib = None ->
  joinable (fst (fst (search_pubmed esearch))) = Some ids ->
  fetch_article_details_with_abstract ids efetch <> [] ->
  main lib esearch efetch f table = None.
Proof.
  intros Hp Hr Hj Hfetch. unfold main. rewrite api_key_is_set.
  destruct (search_pubmed esearch) as [[article_ids webenv] query_key].
  cbn [fst] in Hj.
  destruct article_ids as [|i rest].
  - injection Hj as <-. now destruct Hfetch.
  - rewrite Hj.
    now rewrite (enrich_raises_without_rake lib _ Hp Hr Hfetch).
Qed.

Lemma missing_rake_ends_run_witness :
  main Samples.no_stopwords (Some Samples.search_result)
       (Some Samples.detail_result) no_faults Samples.first_table = None.
Proof.
  apply (missing_rake_ends_run _ _ _ _ _ [u "2"]); try reflexivity.
  vm_compute. discriminate.
Defined.
